(** * The nodeorder plugin of kube-batch: a shallow embedding and its properties

    Source: pkg/scheduler/plugins/nodeorder/nodeorder.go.

    The plugin resolves four integer weights from its argument bag, keeps a
    per-session map from node names to scheduler-cache node entries in step
    with allocate and deallocate events, and scores a (task, node) pair as the
    weighted sum of four priority functions. *)

From Stdlib Require Import ZArith Lia Bool List String Ascii.
From Corelib Require Import SpecFloat.
From stdpp Require Import gmap strings list fin_maps.

Local Open Scope string_scope.
Local Open Scope list_scope.
Local Open Scope Z_scope.

(** ** Go's [int] on a 64-bit platform *)

Module GoInt.

Definition minInt : Z := - 2 ^ 63.
Definition maxInt : Z := 2 ^ 63 - 1.

Definition inRange (z : Z) : Prop := minInt <= z <= maxInt.

(** Two's-complement wrap-around of an exact result. *)
Definition wrap (z : Z) : Z := (z + 2 ^ 63) mod 2 ^ 64 - 2 ^ 63.

(** [a * b] on [int]. *)
Definition mul (a b : Z) : Z := wrap (a * b).

End GoInt.

(** ** Go's [float64]: IEEE 754 binary64, round to nearest even *)

Module Float64.

Definition prec : Z := 53.
Definition emax : Z := 1024.

Definition float64 : Type := spec_float.

(** The literal [0.0]. *)
Definition zero : float64 := S754_zero false.

(** [x + y]. *)
Definition add (x y : float64) : float64 := SFadd prec emax x y.

(** The conversion [float64(i)] of an [int]. *)
Definition of_int (i : Z) : float64 := binary_normalize prec emax i 0 false.

(** [x * y]. *)
Definition mul (x y : float64) : float64 := SFmul prec emax x y.

(** [x < y]. *)
Definition ltb (x y : float64) : bool := SFltb x y.

(** The normalised form of a positive integer below [2 ^ 53]: a mantissa
    of exactly [prec] bits. *)
Definition canon (s : bool) (n : positive) : float64 :=
  let d := Z.pos (digits2_pos n) in
  S754_finite s (Z.to_pos (Z.pos n * 2 ^ (prec - d))) (d - prec).

(** A shift record with nothing shifted out. *)
Definition exactRecord (m : Z) : shr_record := Build_shr_record m false false.

End Float64.

Export Float64(float64).

(** ** Data model *)

(** Go's [error]; [nil] is [None] wherever an [error] is returned. *)
Definition error : Type := string.

(** A resource vector (compute and memory). *)
Record Resource : Type := mkResource { MilliCPU : Z; Memory : Z }.

Definition Resource_zero : Resource := mkResource 0 0.
Definition Resource_add (a b : Resource) : Resource :=
  mkResource (MilliCPU a + MilliCPU b) (Memory a + Memory b).
Definition Resource_sub (a b : Resource) : Resource :=
  mkResource (MilliCPU a - MilliCPU b) (Memory a - Memory b).

(** [v1.Pod], reduced to what the plugin and its collaborators read. *)
Record Pod : Type := mkPod {
  podUID : string;
  podNamespace : string;
  podName : string;
  SpecNodeName : string;          (* pod.Spec.NodeName *)
  podLabels : list (string * string);
  podRequest : Resource
}.

(** [v1.Node]. *)
Record Node : Type := mkNode {
  nodeObjName : string;
  nodeLabels : list (string * string);
  Allocatable : Resource
}.

(** [api.TaskInfo]. *)
Record TaskInfo : Type := mkTask {
  UID : string;
  taskNodeName : string;          (* task.NodeName *)
  taskPod : Pod                   (* task.Pod *)
}.

(** [schedulerapi.HostPriority] and [schedulerapi.HostPriorityList]. *)
Record HostPriority : Type := mkHostPriority { Host : string; Score : Z }.
Definition HostPriorityList : Type := list HostPriority.

(** ** getInterPodAffinityScore *)

Fixpoint getInterPodAffinityScore (name : string)
    (interPodAffinityScore : HostPriorityList) : Z :=
  match interPodAffinityScore with
  | [] => 0
  | hostPriority :: rest =>
      if String.eqb (Host hostPriority) name then Score hostPriority
      else getInterPodAffinityScore name rest
  end.

(** ** The argument bag and the weights *)

(** [framework.Arguments] is a map from argument names to their textual
    values. *)
Abbreviation Arguments := (gmap string string).

Definition NodeAffinityWeight : string := "nodeaffinity.weight".
Definition PodAffinityWeight : string := "podaffinity.weight".
Definition LeastRequestedWeight : string := "leastrequested.weight".
Definition BalancedResourceWeight : string := "balancedresource.weight".

Definition digitOf (c : ascii) : option Z :=
  let n := Z.of_N (N_of_ascii c) in
  if (48 <=? n) && (n <=? 57) then Some (n - 48) else None.

Fixpoint parseDigits (acc : Z) (s : string) : option Z :=
  match s with
  | EmptyString => Some acc
  | String c rest =>
      match digitOf c with
      | Some d => parseDigits (10 * acc + d) rest
      | None => None
      end
  end.

(** Go's [strconv.Atoi]: an optional sign, then one or more decimal digits,
    and the value has to fit an [int]. *)
Definition Atoi (s : string) : option Z :=
  let '(neg, body) :=
    match s with
    | String "+"%char rest => (false, rest)
    | String "-"%char rest => (true, rest)
    | _ => (false, s)
    end in
  match body with
  | EmptyString => None
  | _ =>
      match parseDigits 0 body with
      | Some n =>
          let v := if neg then - n else n in
          if (GoInt.minInt <=? v) && (v <=? GoInt.maxInt) then Some v else None
      | None => None
      end
  end.

(** Modelled from the spec: [framework.Arguments.GetInt], which is declared in
    pkg/scheduler/framework, outside the plugin's source file.  Section
    4.1: for a key that is present and parseable as an integer the parsed value
    is stored through the pointer, otherwise the pointed-to value is retained;
    the call itself never fails.  The pointer is modelled by passing the
    current value and returning the new one. *)
Definition GetInt (args : Arguments) (current : Z) (key : string) : Z :=
  match args !! key with
  | Some argv =>
      match Atoi argv with
      | Some value => value
      | None => current
      end
  | None => current
  end.

Record priorityWeight : Type := mkWeight {
  leastReqWeight : Z;
  nodeAffinityWeight : Z;
  podAffinityWeight : Z;
  balancedRescourceWeight : Z
}.

Definition calculateWeight (args : Arguments) : priorityWeight :=
  (* Values are initialized to 1. *)
  let weight := mkWeight 1 1 1 1 in
  let weight :=
    mkWeight (leastReqWeight weight)
             (GetInt args (nodeAffinityWeight weight) NodeAffinityWeight)
             (podAffinityWeight weight)
             (balancedRescourceWeight weight) in
  let weight :=
    mkWeight (leastReqWeight weight)
             (nodeAffinityWeight weight)
             (GetInt args (podAffinityWeight weight) PodAffinityWeight)
             (balancedRescourceWeight weight) in
  let weight :=
    mkWeight (GetInt args (leastReqWeight weight) LeastRequestedWeight)
             (nodeAffinityWeight weight)
             (podAffinityWeight weight)
             (balancedRescourceWeight weight) in
  let weight :=
    mkWeight (leastReqWeight weight)
             (nodeAffinityWeight weight)
             (podAffinityWeight weight)
             (GetInt args (balancedRescourceWeight weight) BalancedResourceWeight) in
  weight.

(** The weight the specification assigns to a key: the parsed value when the
    key is present and parseable, and 1 otherwise. *)
Definition spec_weight (args : Arguments) (key : string) : Z :=
  match args !! key with
  | Some argv => default 1 (Atoi argv)
  | None => 1
  end.

(** ** The session's nodes and the node-capacity lookup *)

(** Modelled from the spec: [api.NodeInfo], the session's view of a node
    (pkg/scheduler/api, outside the plugin's source file).  Section 3: a node
    has an identity, a node object with its capacity, and the tasks currently
    bound to it; [Pods] lists the pods of those tasks. *)
Record ApiNodeInfo : Type := mkApiNodeInfo {
  Name : string;
  apiNode : Node;                 (* node.Node *)
  Tasks : list TaskInfo
}.

(** Modelled from the spec: [api.NodeInfo.Pods], the pods of the tasks bound to
    the node (Section 3). *)
Definition Pods (ni : ApiNodeInfo) : list Pod := map taskPod (Tasks ni).

(** [framework.Session], reduced to the node snapshot the plugin reads. *)
Record Session : Type := mkSession { Nodes : gmap string ApiNodeInfo }.

Record cachedNodeInfo : Type := mkCachedNodeInfo { session : Session }.

(** The inner loop of [GetNodeInfo]: does some pod of the list have an empty
    node name? *)
Fixpoint hasUnboundPod (pods : list Pod) : bool :=
  match pods with
  | [] => false
  | pod :: rest =>
      if String.eqb (SpecNodeName pod) "" then true else hasUnboundPod rest
  end.

(** The outer loop of [GetNodeInfo], over the entries of the session's node
    map in the order in which the [range] statement visits them. *)
Fixpoint firstWithUnboundPod (visited : list (string * ApiNodeInfo)) : option Node :=
  match visited with
  | [] => None
  | (_, cacheNode) :: rest =>
      if hasUnboundPod (Pods cacheNode) then Some (apiNode cacheNode)
      else firstWithUnboundPod rest
  end.

(** [(c *cachedNodeInfo) GetNodeInfo].  Go leaves the iteration order of a
    map unspecified, so the order [visited] in which the [range] statement
    enumerates [c.session.Nodes] is an argument: any permutation of the map's
    entries may be supplied. *)
Definition GetNodeInfo (visited : list (string * ApiNodeInfo))
    (c : cachedNodeInfo) (name : string) : option Node * option error :=
  match Nodes (session c) !! name with
  | None =>
      match firstWithUnboundPod visited with
      | Some n => (Some n, None)
      | None => (None, Some (String.append "failed to find node <" (String.append name ">")))
      end
  | Some node => (Some (apiNode node), None)
  end.

(** ** The Node/Task State Index entry *)

(** Modelled from the spec: [cache.NodeInfo] of the scheduler cache the plugin
    imports (k8s.io/kubernetes/pkg/scheduler/cache, outside the plugin's source
    file), with [NewNodeInfo], [SetNode], [AddPod] and [RemovePod].  Section 3:
    an entry is [{ node, boundTasks, aggregateUsage }].  Section 4.2: bind adds
    the task to [boundTasks] and adds its request to [aggregateUsage]; unbind is
    the inverse of bind.  [boundTasks] is kept as the list of bound pods, the
    most recently bound first, and the pods are held by value; a pod is
    identified by its UID, and unbinding a pod that is not bound leaves the
    entry as it is. *)
Record NodeInfo : Type := mkNodeInfo {
  node : option Node;
  pods : list Pod;                (* boundTasks *)
  requestedResource : Resource    (* aggregateUsage *)
}.

(** Modelled from the spec: [cache.NodeInfo.AddPod], the bind of Section 4.2. *)
Definition AddPod (n : NodeInfo) (pod : Pod) : NodeInfo :=
  mkNodeInfo (node n) (pod :: pods n)
             (Resource_add (requestedResource n) (podRequest pod)).

(** The list without its first pod of the given UID, if there is one. *)
Fixpoint removeFirst (uid : string) (l : list Pod) : option (list Pod) :=
  match l with
  | [] => None
  | p :: rest =>
      if String.eqb (podUID p) uid then Some rest
      else option_map (cons p) (removeFirst uid rest)
  end.

(** Modelled from the spec: [cache.NodeInfo.RemovePod], the unbind of Section
    4.2, inverse of bind. *)
Definition RemovePod (n : NodeInfo) (pod : Pod) : NodeInfo :=
  match removeFirst (podUID pod) (pods n) with
  | Some rest =>
      mkNodeInfo (node n) rest
                 (Resource_sub (requestedResource n) (podRequest pod))
  | None => n
  end.

(** Modelled from the spec: [cache.NewNodeInfo], an entry without node object
    to which the given pods are bound one by one (Section 4.2: the bound tasks
    are initialised to the tasks given, the aggregate usage accordingly). *)
Definition NewNodeInfo (initial : list Pod) : NodeInfo :=
  fold_left AddPod initial (mkNodeInfo None [] Resource_zero).

(** Modelled from the spec: [cache.NodeInfo.SetNode], which sets the node
    reference of the entry (Section 3). *)
Definition SetNode (n : NodeInfo) (nd : Node) : NodeInfo :=
  mkNodeInfo (Some nd) (pods n) (requestedResource n).

(** The sum of the requests of a list of pods. *)
Definition sumRequests (l : list Pod) : Resource :=
  fold_right (fun p acc => Resource_add (podRequest p) acc) Resource_zero l.

(** The invariant of Section 3 on one entry, and on the whole index. *)
Definition entryConsistent (n : NodeInfo) : Prop :=
  requestedResource n = sumRequests (pods n).

Definition indexConsistent (nodeMap : gmap string NodeInfo) : Prop :=
  forall name n, nodeMap !! name = Some n -> entryConsistent n.

(** ** The pod lister *)

(** Modelled from the spec: [util.PodLister] and its [UpdateTask]
    (pkg/scheduler/plugins/util, outside the plugin's source file).  Section 6
    calls it the abstraction that resolves a task's current placement, and
    Section 4.5 has the allocate handler set the task's assigned node and the
    deallocate handler clear it: [UpdateTask task nodeName] records, under the
    task's UID, the task's pod with its node name set to [nodeName], and
    returns that pod. *)
Record PodLister : Type := mkPodLister { CachedPods : gmap string Pod }.

(** The pod with [pod.Spec.NodeName] set to [nodeName]. *)
Definition withNodeName (pod : Pod) (nodeName : string) : Pod :=
  mkPod (podUID pod) (podNamespace pod) (podName pod) nodeName
        (podLabels pod) (podRequest pod).

(** Modelled from the spec: [util.PodLister.UpdateTask] (Section 4.5: the
    task's assigned node is set to [nodeName]). *)
Definition UpdateTask (pl : PodLister) (task : TaskInfo) (nodeName : string)
    : Pod * PodLister :=
  let pod := withNodeName (taskPod task) nodeName in
  (pod, mkPodLister (<[UID task := pod]> (CachedPods pl))).

(** [util.NodeLister] only carries the session. *)
Record NodeLister : Type := mkNodeLister { nlSession : Session }.

(** ** Plugin state, logging and the call trace *)

(** The four priority functions of the scheduler library. *)
Inductive Priority : Type :=
  | LeastRequested
  | BalancedResource
  | NodeAffinity
  | InterPodAffinity.

(** The [glog] calls of the plugin, one constructor per call site, with the
    arguments of the format string. *)
Inductive LogEntry : Type :=
  | WarnAllocateNotExist (ns name nodeName : string)
  | InfoAllocate (ns name nodeName : string)
  | WarnDeallocateNotExist (ns name nodeName : string)
  | InfoDeallocate (ns name nodeName : string)
  | WarnGenerateNodeInfo (nodeName : string)
  | WarnPriorityFailed (which : Priority) (err : error)
  | InfoTotalScore (score : float64).

(** What the closures registered by [OnSessionOpen] share: the session, the
    node map, the pod lister, and (to observe effects) the log written and the
    priority functions called so far, oldest first. *)
Record Env : Type := mkEnv {
  ssn : Session;
  nodeMap : gmap string NodeInfo;
  podLister : PodLister;
  glog : list LogEntry;
  invoked : list Priority
}.

(** A state monad over [Env]. *)
Definition M (A : Type) : Type := Env -> A * Env.

Definition ret {A} (a : A) : M A := fun s => (a, s).
Definition bind {A B} (m : M A) (k : A -> M B) : M B :=
  fun s => let '(a, s') := m s in k a s'.
Definition gets {A} (f : Env -> A) : M A := fun s => (f s, s).

Declare Scope plugin_scope.
Delimit Scope plugin_scope with plugin.
Notation "x <- c1 ;; c2" := (bind c1 (fun x => c2))
  (at level 100, c1 at next level, right associativity) : plugin_scope.
Notation "c1 ;;; c2" := (bind c1 (fun _ => c2))
  (at level 100, c2 at level 200, right associativity) : plugin_scope.

Definition log (e : LogEntry) : M unit :=
  fun s => (tt, mkEnv (ssn s) (nodeMap s) (podLister s) (glog s ++ [e]) (invoked s)).

(** Calling a priority function of the library: the call is recorded, its
    result is returned. *)
Definition call {A} (which : Priority) (result : A) : M A :=
  fun s => (result, mkEnv (ssn s) (nodeMap s) (podLister s) (glog s) (invoked s ++ [which])).

Definition putNode (name : string) (n : NodeInfo) : M unit :=
  fun s => (tt, mkEnv (ssn s) (<[name := n]> (nodeMap s)) (podLister s) (glog s) (invoked s)).

Definition updateTask (task : TaskInfo) (nodeName : string) : M Pod :=
  fun s =>
    let '(pod, pl) := UpdateTask (podLister s) task nodeName in
    (pod, mkEnv (ssn s) (nodeMap s) pl (glog s) (invoked s)).

(** ** The event handlers *)

Record Event : Type := mkEvent { Task : TaskInfo }.

Local Open Scope plugin_scope.

Definition AllocateFunc (event : Event) : M unit :=
  pod <- updateTask (Task event) (taskNodeName (Task event)) ;;
  let nodeName := taskNodeName (Task event) in
  found <- gets (fun s => nodeMap s !! nodeName) ;;
  match found with
  | None => log (WarnAllocateNotExist (podNamespace pod) (podName pod) nodeName)
  | Some node =>
      putNode nodeName (AddPod node pod) ;;;
      log (InfoAllocate (podNamespace pod) (podName pod) nodeName)
  end.

Definition DeallocateFunc (event : Event) : M unit :=
  pod <- updateTask (Task event) "" ;;
  let nodeName := taskNodeName (Task event) in
  found <- gets (fun s => nodeMap s !! nodeName) ;;
  match found with
  | None => log (WarnDeallocateNotExist (podNamespace pod) (podName pod) nodeName)
  | Some node =>
      putNode nodeName (RemovePod node pod) ;;;
      log (InfoDeallocate (podNamespace pod) (podName pod) nodeName)
  end.

(** ** The scoring function *)

(** [v1.DefaultHardPodAffinitySymmetricWeight]. *)
Definition DefaultHardPodAffinitySymmetricWeight : Z := 1.

Section Scoring.

(** The priority functions of k8s.io/kubernetes/pkg/scheduler/algorithm/priorities
    are external to the plugin.  They are functions of their arguments (the
    [meta] argument is always [nil] and is left out) and return a result
    together with an [error]. *)
Variable LeastRequestedPriorityMap : Pod -> NodeInfo -> HostPriority * option error.
Variable BalancedResourceAllocationMap : Pod -> NodeInfo -> HostPriority * option error.
Variable CalculateNodeAffinityPriorityMap : Pod -> NodeInfo -> HostPriority * option error.
Variable NewInterPodAffinityPriority :
  (string -> option Node * option error) -> NodeLister -> PodLister -> Z ->
  Pod -> gmap string NodeInfo -> list Node -> HostPriorityList * option error.

(** The order in which a [range] over the session's node map visits its
    entries. *)
Variable mapRange : gmap string ApiNodeInfo -> list (string * ApiNodeInfo).

(** Fixed when the session opens: the weights and the slice of all nodes. *)
Variable weight : priorityWeight.
Variable nodeSlice : list Node.

(** The entry a scoring call works on: the indexed one, or one generated
    from the candidate node when the index has none. *)
Definition resolveNodeInfo (node : ApiNodeInfo) : M NodeInfo :=
  found <- gets (fun s => nodeMap s !! Name node) ;;
  match found with
  | Some nodeInfo => ret nodeInfo
  | None =>
      let nodeInfo := NewNodeInfo (Pods node) in
      let nodeInfo := SetNode nodeInfo (apiNode node) in
      log (WarnGenerateNodeInfo (Name node)) ;;;
      ret nodeInfo
  end.

(** Lines 226 and 227: the inter-pod-affinity function built from the
    node-capacity lookup, the node lister and the pod lister, applied to the
    whole index. *)
Definition interPodAffinityScores (s : Env) (task : TaskInfo)
    : HostPriorityList * option error :=
  let cn := mkCachedNodeInfo (ssn s) in
  let nl := mkNodeLister (ssn s) in
  let mapFn :=
    NewInterPodAffinityPriority (GetNodeInfo (mapRange (Nodes (ssn s))) cn) nl
      (podLister s) DefaultHardPodAffinitySymmetricWeight in
  mapFn (taskPod task) (nodeMap s) nodeSlice.

Definition interPodAffinity (task : TaskInfo) : M (HostPriorityList * option error) :=
  s <- gets (fun s => s) ;;
  call InterPodAffinity (interPodAffinityScores s task).

(** Lines 197 to 237: the four priority functions in turn, on the resolved
    entry [nodeInfo]. *)
Definition scoreAgainst (task : TaskInfo) (node : ApiNodeInfo) (nodeInfo : NodeInfo)
    : M (float64 * option error) :=
  let score := Float64.zero in
  r <- call LeastRequested (LeastRequestedPriorityMap (taskPod task) nodeInfo) ;;
  match r with
  | (_, Some err) =>
      log (WarnPriorityFailed LeastRequested err) ;;;
      ret (Float64.zero, Some err)
  | (host, None) =>
  let score :=
    Float64.add score (Float64.of_int (GoInt.mul (Score host) (leastReqWeight weight))) in
  r <- call BalancedResource (BalancedResourceAllocationMap (taskPod task) nodeInfo) ;;
  match r with
  | (_, Some err) =>
      log (WarnPriorityFailed BalancedResource err) ;;;
      ret (Float64.zero, Some err)
  | (host, None) =>
  let score :=
    Float64.add score (Float64.of_int (GoInt.mul (Score host) (balancedRescourceWeight weight))) in
  r <- call NodeAffinity (CalculateNodeAffinityPriorityMap (taskPod task) nodeInfo) ;;
  match r with
  | (_, Some err) =>
      log (WarnPriorityFailed NodeAffinity err) ;;;
      ret (Float64.zero, Some err)
  | (host, None) =>
  let score :=
    Float64.add score (Float64.of_int (GoInt.mul (Score host) (nodeAffinityWeight weight))) in
  r <- interPodAffinity task ;;
  match r with
  | (_, Some err) =>
      log (WarnPriorityFailed InterPodAffinity err) ;;;
      ret (Float64.zero, Some err)
  | (interPodAffinityScore, None) =>
  let hostScore := getInterPodAffinityScore (Name node) interPodAffinityScore in
  let score :=
    Float64.add score (Float64.of_int (GoInt.mul hostScore (podAffinityWeight weight))) in
  log (InfoTotalScore score) ;;;
  ret (score, None)
  end end end end.

Definition nodeOrderFn (task : TaskInfo) (node : ApiNodeInfo)
    : M (float64 * option error) :=
  nodeInfo <- resolveNodeInfo node ;;
  scoreAgainst task node nodeInfo.

End Scoring.

(** ** Notions the properties are stated with *)

(** What one priority function adds to the score: [float64(score * weight)]. *)
Definition contribution (score weight : Z) : float64 :=
  Float64.of_int (GoInt.mul score weight).

(** The weighted sum of four raw sub-scores, added up in the order
    Least-Requested, Balanced-Resource, Node-Affinity, Inter-Task-Affinity. *)
Definition weightedSum (w : priorityWeight) (lr br na ipa : Z) : float64 :=
  Float64.add
    (Float64.add
       (Float64.add
          (Float64.add Float64.zero (contribution lr (leastReqWeight w)))
          (contribution br (balancedRescourceWeight w)))
       (contribution na (nodeAffinityWeight w)))
    (contribution ipa (podAffinityWeight w)).

(** The same sum in exact integer arithmetic. *)
Definition exactSum (w : priorityWeight) (lr br na ipa : Z) : Z :=
  lr * leastReqWeight w + br * balancedRescourceWeight w
  + na * nodeAffinityWeight w + ipa * podAffinityWeight w.


(** A state that differs from [s] only by further log entries and further
    recorded calls. *)
Definition extend (s : Env) (calls : list Priority) (entries : list LogEntry) : Env :=
  mkEnv (ssn s) (nodeMap s) (podLister s) (glog s ++ entries) (invoked s ++ calls).

(** The first error among the results of the four priority functions, in the
    fixed order in which the plugin consults them. *)
Definition firstFailure {A B C D} (lr : A * option error) (br : B * option error)
    (na : C * option error) (ipa : D * option error) : option (Priority * error) :=
  match snd lr, snd br, snd na, snd ipa with
  | Some e, _, _, _ => Some (LeastRequested, e)
  | None, Some e, _, _ => Some (BalancedResource, e)
  | None, None, Some e, _ => Some (NodeAffinity, e)
  | None, None, None, Some e => Some (InterPodAffinity, e)
  | None, None, None, None => None
  end.

(** The priority functions up to and including [which]. *)
Definition callsThrough (which : Priority) : list Priority :=
  match which with
  | LeastRequested => [LeastRequested]
  | BalancedResource => [LeastRequested; BalancedResource]
  | NodeAffinity => [LeastRequested; BalancedResource; NodeAffinity]
  | InterPodAffinity => [LeastRequested; BalancedResource; NodeAffinity; InterPodAffinity]
  end.

(** One bind/unbind cycle per event: the allocate handler, then the matching
    deallocate handler. *)
Definition cycle (event : Event) (s : Env) : Env :=
  snd (DeallocateFunc event (snd (AllocateFunc event s))).

Definition runCycles (events : list Event) (s : Env) : Env :=
  fold_left (fun s event => cycle event s) events s.

(** Does the node of a map entry host a pod with an empty node name? *)
Definition hostsUnboundPod (cacheNode : ApiNodeInfo) : Prop :=
  exists pod, In pod (Pods cacheNode) /\ SpecNodeName pod = "".

(** The keys [calculateWeight] recognises. *)
Definition recognizedKeys : list string :=
  [NodeAffinityWeight; PodAffinityWeight; LeastRequestedWeight; BalancedResourceWeight].

(** The result of a scoring call in terms of the results of the four priority
    functions: the first error if there is one, the weighted sum otherwise. *)
Definition verdict (w : priorityWeight) (name : string)
    (lr br na : HostPriority * option error) (ipa : HostPriorityList * option error)
    : float64 * option error :=
  match firstFailure lr br na ipa with
  | Some (_, e) => (Float64.zero, Some e)
  | None =>
      (weightedSum w (Score (fst lr)) (Score (fst br)) (Score (fst na))
         (getInterPodAffinityScore name (fst ipa)), None)
  end.

(** The weight of a priority function, and the weight set with that one
    weight multiplied by [k]. *)
Definition weightOf (which : Priority) (w : priorityWeight) : Z :=
  match which with
  | LeastRequested => leastReqWeight w
  | BalancedResource => balancedRescourceWeight w
  | NodeAffinity => nodeAffinityWeight w
  | InterPodAffinity => podAffinityWeight w
  end.

Definition scaleWeight (which : Priority) (k : Z) (w : priorityWeight) : priorityWeight :=
  match which with
  | LeastRequested =>
      mkWeight (leastReqWeight w * k) (nodeAffinityWeight w) (podAffinityWeight w)
               (balancedRescourceWeight w)
  | BalancedResource =>
      mkWeight (leastReqWeight w) (nodeAffinityWeight w) (podAffinityWeight w)
               (balancedRescourceWeight w * k)
  | NodeAffinity =>
      mkWeight (leastReqWeight w) (nodeAffinityWeight w * k) (podAffinityWeight w)
               (balancedRescourceWeight w)
  | InterPodAffinity =>
      mkWeight (leastReqWeight w) (nodeAffinityWeight w) (podAffinityWeight w * k)
               (balancedRescourceWeight w)
  end.

(** The raw sub-score of a priority function among the four. *)
Definition subScore (which : Priority) (lr br na ipa : Z) : Z :=
  match which with
  | LeastRequested => lr
  | BalancedResource => br
  | NodeAffinity => na
  | InterPodAffinity => ipa
  end.

(** Every weighted sub-score is below [2 ^ 51] in absolute value, so that the
    products do not overflow and they and their partial sums are exact in
    [float64]. *)
Definition termsBounded (w : priorityWeight) (lr br na ipa : Z) : Prop :=
  Z.abs (lr * leastReqWeight w) < 2 ^ 51
  /\ Z.abs (br * balancedRescourceWeight w) < 2 ^ 51
  /\ Z.abs (na * nodeAffinityWeight w) < 2 ^ 51
  /\ Z.abs (ipa * podAffinityWeight w) < 2 ^ 51.

(** ** Sample priority functions and a sample cluster

    Small instances of the four external priority functions, after their
    description in Section 4.3 of the specification, and a one-node cluster.
    They serve to run the plugin on concrete inputs. *)

Module Sample.

Definition leastRequestedScore (requested capacity : Z) : Z :=
  if capacity =? 0 then 0
  else if capacity <? requested then 0
  else ((capacity - requested) * 10) / capacity.

(** More unused capacity gives a higher score; fails without a node object. *)
Definition leastRequested (pod : Pod) (n : NodeInfo) : HostPriority * option error :=
  match node n with
  | None => (mkHostPriority "" 0, Some "node not found")
  | Some nd =>
      let requested := Resource_add (requestedResource n) (podRequest pod) in
      let cpu := leastRequestedScore (MilliCPU requested) (MilliCPU (Allocatable nd)) in
      let mem := leastRequestedScore (Memory requested) (Memory (Allocatable nd)) in
      (mkHostPriority (nodeObjName nd) ((cpu + mem) / 2), None)
  end.

(** Close utilisation fractions of compute and memory give a higher score. *)
Definition balancedResource (pod : Pod) (n : NodeInfo) : HostPriority * option error :=
  match node n with
  | None => (mkHostPriority "" 0, Some "node not found")
  | Some nd =>
      let requested := Resource_add (requestedResource n) (podRequest pod) in
      let cpuCap := MilliCPU (Allocatable nd) in
      let memCap := Memory (Allocatable nd) in
      let skew := Z.abs (MilliCPU requested * memCap - Memory requested * cpuCap) in
      let score := if cpuCap * memCap =? 0 then 0
                   else 10 - (skew * 10) / (cpuCap * memCap) in
      (mkHostPriority (nodeObjName nd) score, None)
  end.

Definition hasLabel (labels : list (string * string)) (kv : string * string) : bool :=
  existsb (fun l => String.eqb (fst l) (fst kv) && String.eqb (snd l) (snd kv)) labels.

(** One point per label of the pod that the node carries as well. *)
Definition nodeAffinity (pod : Pod) (n : NodeInfo) : HostPriority * option error :=
  match node n with
  | None => (mkHostPriority "" 0, Some "node not found")
  | Some nd =>
      (mkHostPriority (nodeObjName nd)
         (Z.of_nat (length (filter (hasLabel (nodeLabels nd)) (podLabels pod)))), None)
  end.

Definition sharesLabel (pod other : Pod) : bool :=
  existsb (hasLabel (podLabels other)) (podLabels pod).

(** One pass over all nodes: a node scores one point per bound pod that
    shares a label with the pod; fails when the node of a placed pod cannot
    be resolved. *)
Definition interPodAffinity (getNodeInfo : string -> option Node * option error)
    (nl : NodeLister) (pl : PodLister) (hardWeight : Z)
    (pod : Pod) (nodes : gmap string NodeInfo) (nodeSlice : list Node)
    : HostPriorityList * option error :=
  let placed := map snd (map_to_list (CachedPods pl)) in
  match list_find (fun p => is_Some (snd (getNodeInfo (SpecNodeName p)))) placed with
  | Some (_, p) => ([], snd (getNodeInfo (SpecNodeName p)))
  | None =>
      (map (fun nd =>
              mkHostPriority (nodeObjName nd)
                (match nodes !! nodeObjName nd with
                 | Some n => hardWeight * Z.of_nat (length (filter (sharesLabel pod) (pods n)))
                 | None => 0
                 end)) nodeSlice, None)
  end.

(** A [range] that visits the entries in the order of [map_to_list]. *)
Definition mapRange (m : gmap string ApiNodeInfo) : list (string * ApiNodeInfo) :=
  map_to_list m.

Definition node1 : Node := mkNode "node-1" [("zone", "a")] (mkResource 4000 8192).

Definition podA : Pod :=
  mkPod "uid-a" "default" "pod-a" "node-1" [("team", "x")] (mkResource 2000 4096).
Definition taskA : TaskInfo := mkTask "uid-a" "node-1" podA.

Definition podB : Pod :=
  mkPod "uid-b" "default" "pod-b" "" [("team", "x"); ("zone", "a")] (mkResource 1000 2048).
Definition taskB : TaskInfo := mkTask "uid-b" "node-1" podB.

(** A task placed on a node that neither the session nor the index knows. *)
Definition podG : Pod :=
  mkPod "uid-g" "default" "pod-g" "" [("team", "y")] (mkResource 500 1024).
Definition taskG : TaskInfo := mkTask "uid-g" "ghost" podG.

(** The session's view of node-1, hosting task A. *)
Definition apiNode1 : ApiNodeInfo := mkApiNodeInfo "node-1" node1 [taskA].

Definition session1 : Session := mkSession {[ "node-1" := apiNode1 ]}.

(** A second node, hosting task B, whose pod has no node name yet. *)
Definition node2 : Node := mkNode "node-2" [("zone", "b")] (mkResource 2000 4096).
Definition apiNode2 : ApiNodeInfo := mkApiNodeInfo "node-2" node2 [taskB].
Definition session2 : Session :=
  mkSession {[ "node-1" := apiNode1; "node-2" := apiNode2 ]}.

(** node-1 is indexed, with pod A bound. *)
Definition indexed : Env :=
  mkEnv session1 {[ "node-1" := SetNode (NewNodeInfo [podA]) node1 ]}
        (mkPodLister {[ "uid-a" := podA ]}) [] [].

(** Nothing is indexed. *)
Definition unindexed : Env :=
  mkEnv session1 ∅ (mkPodLister ∅) [] [].


Definition nodeSlice : list Node := [node1].

Definition unitWeight : priorityWeight := mkWeight 1 1 1 1.

(** A Least-Requested weight of [2 ^ 61]. *)
Definition heavyWeight : priorityWeight := mkWeight (2 ^ 61) 1 1 1.

Definition score (w : priorityWeight) : TaskInfo -> ApiNodeInfo -> M (float64 * option error) :=
  nodeOrderFn leastRequested balancedResource nodeAffinity interPodAffinity
    mapRange w nodeSlice.

End Sample.

(** ** Sequences of events *)

(** One invocation of a registered handler. *)
Inductive Step : Type :=
  | Allocate (event : Event)
  | Deallocate (event : Event).

Definition stepEvent (st : Step) : Event :=
  match st with
  | Allocate event => event
  | Deallocate event => event
  end.

Definition handle (st : Step) : M unit :=
  match st with
  | Allocate event => AllocateFunc event
  | Deallocate event => DeallocateFunc event
  end.

Definition runSteps (steps : list Step) (s : Env) : Env :=
  fold_left (fun s st => snd (handle st s)) steps s.

(** What the handlers do to the index alone. *)
Definition bindIndex (event : Event) (index : gmap string NodeInfo)
    : gmap string NodeInfo :=
  let nodeName := taskNodeName (Task event) in
  match index !! nodeName with
  | Some n => <[nodeName := AddPod n (withNodeName (taskPod (Task event)) nodeName)]> index
  | None => index
  end.

Definition unbindIndex (event : Event) (index : gmap string NodeInfo)
    : gmap string NodeInfo :=
  let nodeName := taskNodeName (Task event) in
  match index !! nodeName with
  | Some n => <[nodeName := RemovePod n (withNodeName (taskPod (Task event)) "")]> index
  | None => index
  end.

Definition stepIndex (st : Step) : gmap string NodeInfo -> gmap string NodeInfo :=
  match st with
  | Allocate event => bindIndex event
  | Deallocate event => unbindIndex event
  end.

(** What a sequence of events does to the index alone. *)
Definition runIndex (steps : list Step) (index : gmap string NodeInfo)
    : gmap string NodeInfo :=
  fold_left (fun index st => stepIndex st index) steps index.

(** The node name the pod lister holds for the task after a step. *)
Definition stepNodeName (st : Step) : string :=
  match st with
  | Allocate event => taskNodeName (Task event)
  | Deallocate _ => ""
  end.

(** The one log entry a step writes, given whether the node was indexed. *)
Definition stepLogEntry (st : Step) (found : bool) : LogEntry :=
  let task := Task (stepEvent st) in
  let ns := podNamespace (taskPod task) in
  let name := podName (taskPod task) in
  match st, found with
  | Allocate _, true => InfoAllocate ns name (taskNodeName task)
  | Allocate _, false => WarnAllocateNotExist ns name (taskNodeName task)
  | Deallocate _, true => InfoDeallocate ns name (taskNodeName task)
  | Deallocate _, false => WarnDeallocateNotExist ns name (taskNodeName task)
  end.

(** Sequences in which every allocate is closed by the deallocate of the same
    event, cycles being nested or following each other. *)
Inductive WellNested : list Step -> Prop :=
  | WellNested_nil : WellNested []
  | WellNested_wrap event steps :
      WellNested steps ->
      WellNested (Allocate event :: steps ++ [Deallocate event])
  | WellNested_app steps1 steps2 :
      WellNested steps1 -> WellNested steps2 -> WellNested (steps1 ++ steps2).

(** ** The plugin and its registration with the session *)

Record nodeOrderPlugin : Type := mkPlugin {
  (* Arguments given for the plugin *)
  pluginArguments : Arguments
}.

Definition New (aruguments : Arguments) : nodeOrderPlugin := mkPlugin aruguments.

(** [(pp *nodeOrderPlugin) Name]. *)
Definition nodeOrderPlugin_Name (pp : nodeOrderPlugin) : string := "nodeorder".

(** [api.NodeOrderFn], the type of a scoring function. *)
Definition NodeOrderFn : Type := TaskInfo -> ApiNodeInfo -> M (float64 * option error).

(** [framework.EventHandler]. *)
Record EventHandler : Type := mkEventHandler {
  ehAllocateFunc : Event -> M unit;
  ehDeallocateFunc : Event -> M unit
}.

(** Modelled from the spec: what the session keeps of the plugins registered
    with it ([framework.Session.AddEventHandler] and [AddNodeOrderFn], in
    pkg/scheduler/framework, outside the plugin's source file).  Section 6: a
    plugin registers under its name one scoring function, and it supplies a
    pair of lifecycle event handlers. *)
Record Registry : Type := mkRegistry {
  eventHandlers : list EventHandler;
  nodeOrderFns : gmap string NodeOrderFn
}.

(** Modelled from the spec: [framework.Session.AddEventHandler]. *)
Definition AddEventHandler (reg : Registry) (eh : EventHandler) : Registry :=
  mkRegistry (eventHandlers reg ++ [eh]) (nodeOrderFns reg).

(** Modelled from the spec: [framework.Session.AddNodeOrderFn]. *)
Definition AddNodeOrderFn (reg : Registry) (name : string) (fn : NodeOrderFn) : Registry :=
  mkRegistry (eventHandlers reg) (<[name := fn]> (nodeOrderFns reg)).

Section Lifecycle.

Variable LeastRequestedPriorityMap : Pod -> NodeInfo -> HostPriority * option error.
Variable BalancedResourceAllocationMap : Pod -> NodeInfo -> HostPriority * option error.
Variable CalculateNodeAffinityPriorityMap : Pod -> NodeInfo -> HostPriority * option error.
Variable NewInterPodAffinityPriority :
  (string -> option Node * option error) -> NodeLister -> PodLister -> Z ->
  Pod -> gmap string NodeInfo -> list Node -> HostPriorityList * option error.
Variable mapRange : gmap string ApiNodeInfo -> list (string * ApiNodeInfo).

(** [util.NewPodLister] and [util.GenerateNodeMapAndSlice] are external to
    the plugin's source file. *)
Variable NewPodLister : Session -> PodLister.
Variable GenerateNodeMapAndSlice :
  gmap string ApiNodeInfo -> gmap string NodeInfo * list Node.

(** [OnSessionOpen]: the state shared by the closures, and the session's
    registrations with the handlers and the scoring function added. *)
Definition OnSessionOpen (pp : nodeOrderPlugin) (ssn : Session) (reg : Registry)
    : Env * Registry :=
  let weight := calculateWeight (pluginArguments pp) in
  let pl := NewPodLister ssn in
  let '(nodeMap, nodeSlice) := GenerateNodeMapAndSlice (Nodes ssn) in
  (* Register event handlers to update task info in PodLister & nodeMap *)
  let reg := AddEventHandler reg (mkEventHandler AllocateFunc DeallocateFunc) in
  let nodeOrderFn :=
    nodeOrderFn LeastRequestedPriorityMap BalancedResourceAllocationMap
      CalculateNodeAffinityPriorityMap NewInterPodAffinityPriority mapRange
      weight nodeSlice in
  let reg := AddNodeOrderFn reg (nodeOrderPlugin_Name pp) nodeOrderFn in
  (mkEnv ssn nodeMap pl [] [], reg).

(** [OnSessionClose] has an empty body. *)
Definition OnSessionClose (pp : nodeOrderPlugin) (ssn : Session) (reg : Registry)
    : Registry := reg.

End Lifecycle.

(** Two argument bags agree on the four recognised keys. *)
Definition sameWeightArguments (args1 args2 : Arguments) : Prop :=
  forall key, In key recognizedKeys -> args1 !! key = args2 !! key.

(** Further events on the sample cluster. *)
Module SampleEvents.


(** Task B's pod, for a task placed on node-2. *)
Definition taskC : TaskInfo :=
  mkTask "uid-c" "node-2" (mkPod "uid-c" "default" "pod-c" "" [] (mkResource 100 100)).

(** node-1 and node-2 are both indexed. *)
Definition twoNodes : Env :=
  mkEnv Sample.session2
        {[ "node-1" := SetNode (NewNodeInfo [Sample.podA]) Sample.node1;
           "node-2" := SetNode (NewNodeInfo []) Sample.node2 ]}
        (mkPodLister ∅) [] [].

(** A pod lister with nothing cached, and an index with one generated entry
    per node of the session. *)
Definition newPodLister (ssn : Session) : PodLister := mkPodLister ∅.

Definition generateNodeMapAndSlice (nodes : gmap string ApiNodeInfo)
    : gmap string NodeInfo * list Node :=
  ((fun ni => SetNode (NewNodeInfo (Pods ni)) (apiNode ni)) <$> nodes,
   map (fun kv => apiNode (snd kv)) (map_to_list nodes)).

Definition weightArguments : Arguments :=
  {[ "leastrequested.weight" := "2"; "nodeaffinity.weight" := "none" ]}.

Definition moreArguments : Arguments :=
  {[ "leastrequested.weight" := "2"; "nodeaffinity.weight" := "none";
     "imagelocality.weight" := "5"; "verbose" := "true" ]}.

End SampleEvents.

(** * Properties *)

(** ** Go integers *)

Module GoIntFacts.
Import GoInt.

Lemma wrap_inRange z : inRange (wrap z).
Proof.
  unfold inRange, wrap, minInt, maxInt.
  pose proof (Z.mod_pos_bound (z + 2 ^ 63) (2 ^ 64) ltac:(lia)). lia.
Qed.

Lemma wrap_small z : inRange z -> wrap z = z.
Proof.
  unfold inRange, wrap, minInt, maxInt. intros Hz.
  rewrite Z.mod_small by lia. lia.
Qed.

Lemma mul_exact a b : inRange (a * b) -> mul a b = a * b.
Proof. apply wrap_small. Qed.

Lemma mul_1_r a : inRange a -> mul a 1 = a.
Proof. intros Ha. unfold mul. rewrite Z.mul_1_r. now apply wrap_small. Qed.

Lemma mul_0_r a : mul a 0 = 0.
Proof. unfold mul. now rewrite Z.mul_0_r. Qed.

End GoIntFacts.

(** ** Integers below [2 ^ 53] are exact in [float64]

    The conversion of such an integer yields its normalised form, and adding
    two of them whose sum is again below [2 ^ 53] yields the conversion of the
    sum: no rounding takes place. *)

Module Float64Facts.
Import Float64.

Lemma digits2_pos_size p : digits2_pos p = Pos.size p.
Proof. induction p; simpl; congruence. Qed.

Lemma digits_bounds p :
  2 ^ (Z.pos (digits2_pos p) - 1) <= Z.pos p < 2 ^ Z.pos (digits2_pos p).
Proof.
  rewrite digits2_pos_size.
  pose proof (Pos.size_gt p) as Hgt. pose proof (Pos.size_le p) as Hle.
  split.
  - assert (2 ^ Z.pos (Pos.size p) <= 2 * Z.pos p).
    { change (2 * Z.pos p) with (Z.pos p~0). rewrite <- Pos2Z.inj_pow. now apply Pos2Z.pos_le_pos. }
    replace (Z.pos (Pos.size p)) with (Z.pos (Pos.size p) - 1 + 1) in H by lia.
    rewrite Z.pow_add_r in H by lia. lia.
  - change 2 with (Z.pos 2). rewrite <- Pos2Z.inj_pow. now apply Pos2Z.pos_lt_pos.
Qed.

Lemma digits_unique p d :
  2 ^ (d - 1) <= Z.pos p < 2 ^ d -> Z.pos (digits2_pos p) = d.
Proof.
  intros [Hlo Hhi]. pose proof (digits_bounds p) as [Hlo' Hhi'].
  destruct (Z.lt_trichotomy (Z.pos (digits2_pos p)) d) as [Hlt | [Heq | Hgt]]; [| exact Heq |].
  - exfalso. assert (2 ^ Z.pos (digits2_pos p) <= 2 ^ (d - 1)) by (apply Z.pow_le_mono_r; lia). lia.
  - exfalso. assert (0 <= d \/ d < 0) as [Hd | Hd] by lia.
    + assert (2 ^ d <= 2 ^ (Z.pos (digits2_pos p) - 1)) by (apply Z.pow_le_mono_r; lia). lia.
    + rewrite Z.pow_neg_r in Hhi by lia. lia.
Qed.

Lemma iter_xO_mul m q : Z.pos (Pos.iter xO m q) = Z.pos m * 2 ^ Z.pos q.
Proof.
  induction q as [| q IH] using Pos.peano_ind.
  - simpl. lia.
  - rewrite Pos.iter_succ, Pos2Z.inj_succ, Z.pow_succ_r by lia.
    rewrite Pos2Z.inj_xO, IH. lia.
Qed.

Lemma iter_pos_iter {A} (f : A -> A) p x : SpecFloat.iter_pos f p x = Pos.iter f x p.
Proof.
  revert x. induction p as [p IH | p IH |]; intros x; simpl.
  - rewrite !IH, !Pos.iter_swap. reflexivity.
  - now rewrite !IH.
  - reflexivity.
Qed.

Lemma shr_1_even m : shr_1 (exactRecord (2 * Z.pos m)) = exactRecord (Z.pos m).
Proof. reflexivity. Qed.

Lemma shr_exact p m :
  SpecFloat.iter_pos shr_1 p (exactRecord (Z.pos m * 2 ^ Z.pos p)) = exactRecord (Z.pos m).
Proof.
  rewrite iter_pos_iter. revert m.
  induction p as [| p IH] using Pos.peano_ind; intros m.
  - cbn [Pos.iter]. replace (Z.pos m * 2 ^ 1) with (2 * Z.pos m) by lia. apply shr_1_even.
  - rewrite Pos.iter_succ_r.
    rewrite Pos2Z.inj_succ, Z.pow_succ_r by lia.
    replace (Z.pos m * (2 * 2 ^ Z.pos p)) with (2 * Z.pos (Pos.iter xO m p))
      by (rewrite iter_xO_mul; lia).
    rewrite shr_1_even, iter_xO_mul. apply IH.
Qed.

Lemma digits_shift n k : 0 <= k ->
  Z.pos (digits2_pos (Z.to_pos (Z.pos n * 2 ^ k))) = Z.pos (digits2_pos n) + k.
Proof.
  intros Hk. pose proof (digits_bounds n) as [Hlo Hhi].
  assert (0 < 2 ^ k) by (apply Z.pow_pos_nonneg; lia).
  apply digits_unique. rewrite Z2Pos.id by nia.
  replace (Z.pos (digits2_pos n) + k - 1) with (Z.pos (digits2_pos n) - 1 + k) by lia.
  rewrite !Z.pow_add_r by lia. nia.
Qed.

Lemma fexp_normal x : -1021 <= x -> fexp prec emax x = x - prec.
Proof. unfold fexp, SpecFloat.emin, prec, emax. lia. Qed.

Lemma round_aux_canonical s M e :
  Z.pos (digits2_pos M) = prec -> -1074 <= e <= 971 ->
  binary_round_aux prec emax s (Z.pos M) e loc_Exact = S754_finite s M e.
Proof.
  intros HM He. unfold binary_round_aux, shr_fexp, Zdigits2.
  rewrite HM, fexp_normal by (unfold prec; lia).
  replace (prec + e - prec - e) with 0 by lia.
  cbn [shr shr_record_of_loc shr_m loc_of_shr_record round_nearest_even].
  cbn [Zdigits2]. rewrite HM, fexp_normal by (unfold prec; lia).
  replace (prec + e - prec - e) with 0 by lia.
  cbn [shr shr_record_of_loc shr_m].
  replace (e <=? emax - prec) with true; [reflexivity |].
  symmetry. apply Z.leb_le. unfold emax, prec. lia.
Qed.

Lemma round_aux_shift s M p e :
  Z.pos (digits2_pos M) = prec -> -1074 <= e + Z.pos p <= 971 ->
  binary_round_aux prec emax s (Z.pos M * 2 ^ Z.pos p) e loc_Exact
  = S754_finite s M (e + Z.pos p).
Proof.
  intros HM He.
  pose proof (digits_shift M (Z.pos p) ltac:(lia)) as Hd.
  assert (Hpos : Z.pos (Z.to_pos (Z.pos M * 2 ^ Z.pos p)) = Z.pos M * 2 ^ Z.pos p).
  { rewrite Z2Pos.id; [reflexivity |]. assert (0 < 2 ^ Z.pos p) by (apply Z.pow_pos_nonneg; lia). nia. }
  assert (Hdig : Zdigits2 (Z.pos M * 2 ^ Z.pos p) = prec + Z.pos p).
  { rewrite <- Hpos. cbn [Zdigits2]. rewrite Hd, HM. reflexivity. }
  unfold binary_round_aux, shr_fexp.
  rewrite Hdig, fexp_normal by (unfold prec; lia).
  replace (prec + Z.pos p + e - prec - e) with (Z.pos p) by lia.
  cbn [shr shr_record_of_loc]. fold (exactRecord (Z.pos M * 2 ^ Z.pos p)).
  rewrite shr_exact. unfold exactRecord.
  cbn [shr_m loc_of_shr_record round_nearest_even Zdigits2].
  rewrite HM, fexp_normal by (unfold prec; lia).
  replace (prec + (e + Z.pos p) - prec - (e + Z.pos p)) with 0 by lia.
  cbn [shr shr_record_of_loc shr_m].
  replace (e + Z.pos p <=? emax - prec) with true; [reflexivity |].
  symmetry. apply Z.leb_le. unfold emax, prec. lia.
Qed.

Lemma digits_le n : Z.pos n < 2 ^ 53 -> Z.pos (digits2_pos n) <= 53.
Proof.
  intros Hn. pose proof (digits_bounds n) as [Hlo _].
  destruct (Z_le_gt_dec (Z.pos (digits2_pos n)) 53) as [|Hgt]; [assumption | exfalso].
  assert (2 ^ 53 <= 2 ^ (Z.pos (digits2_pos n) - 1)) by (apply Z.pow_le_mono_r; lia).
  lia.
Qed.

Lemma canon_digits n :
  Z.pos n < 2 ^ 53 ->
  Z.pos (digits2_pos (Z.to_pos (Z.pos n * 2 ^ (prec - Z.pos (digits2_pos n))))) = prec.
Proof.
  intros Hn. pose proof (digits_le n Hn).
  rewrite digits_shift by (unfold prec; lia). lia.
Qed.

Lemma binary_round_shifted s n k :
  Z.pos n < 2 ^ 53 -> 0 <= k ->
  binary_round prec emax s (Z.to_pos (Z.pos n * 2 ^ k)) (- k) = canon s n.
Proof.
  intros Hn Hk. pose proof (digits_le n Hn) as Hd.
  pose proof (canon_digits n Hn) as HM.
  assert (H2k : 0 < 2 ^ k) by (apply Z.pow_pos_nonneg; lia).
  unfold binary_round, canon.
  rewrite digits_shift by lia.
  set (d := Z.pos (digits2_pos n)) in *.
  replace (d + k + - k) with d by lia.
  rewrite fexp_normal by lia.
  set (M := Z.to_pos (Z.pos n * 2 ^ (prec - d))) in *.
  assert (HMz : Z.pos M = Z.pos n * 2 ^ (prec - d)).
  { unfold M. rewrite Z2Pos.id; [reflexivity |].
    assert (0 < 2 ^ (prec - d)) by (apply Z.pow_pos_nonneg; unfold prec; lia). nia. }
  unfold shl_align.
  destruct (d - prec - - k) as [| p | q] eqn:Ht.
  - assert (Hk' : k = prec - d) by lia. rewrite Hk'. fold M.
    rewrite round_aux_canonical by (unfold prec in *; lia).
    f_equal. lia.
  - assert (Hk' : k = prec - d + Z.pos p) by lia.
    rewrite Z2Pos.id by nia.
    replace (Z.pos n * 2 ^ k) with (Z.pos M * 2 ^ Z.pos p)
      by (rewrite HMz, Hk', Z.pow_add_r by (unfold prec; lia); lia).
    rewrite round_aux_shift by (unfold prec in *; lia).
    f_equal. lia.
  - assert (Hq : Z.pos q = prec - d - k) by lia.
    assert (HM' : Pos.iter xO (Z.to_pos (Z.pos n * 2 ^ k)) q = M).
    { apply Pos2Z.inj. rewrite iter_xO_mul, Z2Pos.id, HMz by nia.
      rewrite Hq.
      replace (prec - d) with (k + (prec - d - k)) at 2 by lia.
      rewrite Z.pow_add_r by lia. lia. }
    rewrite HM'. apply round_aux_canonical; [assumption |]. unfold prec in *. lia.
Qed.

Lemma of_int_pos n : Z.pos n < 2 ^ 53 -> of_int (Z.pos n) = canon false n.
Proof.
  intros Hn. unfold of_int, binary_normalize.
  pose proof (binary_round_shifted false n 0 Hn ltac:(lia)) as H.
  simpl Z.opp in H. rewrite Z.pow_0_r, Z.mul_1_r in H. exact H.
Qed.

Lemma of_int_neg n : Z.pos n < 2 ^ 53 -> of_int (Z.neg n) = canon true n.
Proof.
  intros Hn. unfold of_int, binary_normalize.
  pose proof (binary_round_shifted true n 0 Hn ltac:(lia)) as H.
  simpl Z.opp in H. rewrite Z.pow_0_r, Z.mul_1_r in H. exact H.
Qed.

Lemma normalize_shifted z k :
  Z.abs z < 2 ^ 53 -> 0 <= k ->
  binary_normalize prec emax (z * 2 ^ k) (- k) false = of_int z.
Proof.
  intros Hz Hk.
  assert (H2k : 0 < 2 ^ k) by (apply Z.pow_pos_nonneg; lia).
  destruct z as [| n | n].
  - reflexivity.
  - rewrite of_int_pos by lia.
    replace (Z.pos n * 2 ^ k) with (Z.pos (Z.to_pos (Z.pos n * 2 ^ k)))
      by (rewrite Z2Pos.id; nia).
    apply binary_round_shifted; lia.
  - rewrite of_int_neg by lia.
    replace (Z.neg n * 2 ^ k) with (Z.neg (Z.to_pos (Z.pos n * 2 ^ k)))
      by (rewrite <- Pos2Z.opp_pos, Z2Pos.id; nia).
    apply binary_round_shifted; lia.
Qed.

Lemma shl_align_value M e ez :
  ez <= e -> Z.pos (fst (shl_align M e ez)) = Z.pos M * 2 ^ (e - ez).
Proof.
  intros Hle. unfold shl_align.
  destruct (ez - e) as [| p | q] eqn:Ht; cbn [fst].
  - replace (e - ez) with 0 by lia. lia.
  - lia.
  - rewrite iter_xO_mul. f_equal. f_equal. lia.
Qed.

(** The integer a normalised float stands for, scaled to the exponent [ez]. *)
Lemma canon_aligned s n ez :
  Z.pos n < 2 ^ 53 -> ez <= Z.pos (digits2_pos n) - prec ->
  cond_Zopp s (Z.pos (fst (shl_align (Z.to_pos (Z.pos n * 2 ^ (prec - Z.pos (digits2_pos n))))
                                      (Z.pos (digits2_pos n) - prec) ez)))
  = cond_Zopp s (Z.pos n) * 2 ^ (- ez).
Proof.
  intros Hn Hez. pose proof (digits_le n Hn) as Hd.
  rewrite shl_align_value by assumption.
  set (d := Z.pos (digits2_pos n)) in *.
  assert (0 < 2 ^ (prec - d)) by (apply Z.pow_pos_nonneg; unfold prec; lia).
  rewrite Z2Pos.id by nia.
  replace (- ez) with ((prec - d) + (d - prec - ez)) by lia.
  rewrite Z.pow_add_r by (unfold prec in *; lia).
  destruct s; cbn [cond_Zopp]; lia.
Qed.

Lemma of_int_canon z :
  z <> 0 -> Z.abs z < 2 ^ 53 ->
  of_int z = canon (z <? 0) (Z.to_pos (Z.abs z)).
Proof.
  intros Hz Hb. destruct z as [| n | n]; [congruence | |].
  - now apply of_int_pos.
  - now apply of_int_neg.
Qed.

Lemma add_of_int a b :
  Z.abs a < 2 ^ 53 -> Z.abs b < 2 ^ 53 -> Z.abs (a + b) < 2 ^ 53 ->
  add (of_int a) (of_int b) = of_int (a + b).
Proof.
  intros Ha Hb Hab.
  destruct (Z.eq_dec a 0) as [-> | Hna].
  { destruct (Z.eq_dec b 0) as [-> | Hnb]; [reflexivity |].
    rewrite Z.add_0_l, (of_int_canon b) by assumption. reflexivity. }
  destruct (Z.eq_dec b 0) as [-> | Hnb].
  { rewrite Z.add_0_r, (of_int_canon a) by assumption. reflexivity. }
  rewrite (of_int_canon a), (of_int_canon b) by assumption.
  set (na := Z.to_pos (Z.abs a)). set (nb := Z.to_pos (Z.abs b)).
  assert (Hna' : Z.pos na < 2 ^ 53) by (unfold na; rewrite Z2Pos.id; lia).
  assert (Hnb' : Z.pos nb < 2 ^ 53) by (unfold nb; rewrite Z2Pos.id; lia).
  assert (Hva : cond_Zopp (a <? 0) (Z.pos na) = a).
  { unfold na. rewrite Z2Pos.id by lia. destruct (Z.ltb_spec a 0); cbn [cond_Zopp]; lia. }
  assert (Hvb : cond_Zopp (b <? 0) (Z.pos nb) = b).
  { unfold nb. rewrite Z2Pos.id by lia. destruct (Z.ltb_spec b 0); cbn [cond_Zopp]; lia. }
  pose proof (digits_le na Hna') as Hda. pose proof (digits_le nb Hnb') as Hdb.
  unfold add, canon, SFadd.
  set (ez := Z.min (Z.pos (digits2_pos na) - prec) (Z.pos (digits2_pos nb) - prec)).
  rewrite !canon_aligned by (try assumption; unfold ez; lia).
  rewrite Hva, Hvb, <- Z.mul_add_distr_r.
  replace ez with (- - ez) at 2 by lia.
  apply normalize_shifted; [assumption |]. unfold ez, prec. lia.
Qed.

End Float64Facts.

(** ** The state index entry *)

Lemma Resource_add_sub r q : Resource_sub (Resource_add r q) q = r.
Proof. destruct r, q. unfold Resource_sub, Resource_add. cbn. f_equal; lia. Qed.

Lemma Resource_add_comm r q : Resource_add r q = Resource_add q r.
Proof. unfold Resource_add. f_equal; lia. Qed.

Lemma RemovePod_AddPod n pod pod' :
  podUID pod' = podUID pod -> podRequest pod' = podRequest pod ->
  RemovePod (AddPod n pod) pod' = n.
Proof.
  intros Huid Hreq. unfold RemovePod, AddPod. cbn.
  rewrite Huid, String.eqb_refl, Hreq, Resource_add_sub.
  now destruct n.
Qed.

Lemma AddPod_consistent n pod : entryConsistent n -> entryConsistent (AddPod n pod).
Proof.
  unfold entryConsistent, AddPod. cbn. intros ->. apply Resource_add_comm.
Qed.

Lemma fold_AddPod_consistent l n :
  entryConsistent n -> entryConsistent (fold_left AddPod l n).
Proof.
  revert n. induction l as [| p l IH]; intros n Hn; cbn; [assumption |].
  apply IH. now apply AddPod_consistent.
Qed.

Lemma NewNodeInfo_consistent l : entryConsistent (NewNodeInfo l).
Proof. apply fold_AddPod_consistent. reflexivity. Qed.

Lemma fold_AddPod_pods l n : pods (fold_left AddPod l n) = rev l ++ pods n.
Proof.
  revert n. induction l as [| p l IH]; intros n; cbn; [reflexivity |].
  rewrite IH. cbn. now rewrite <- app_assoc.
Qed.

Lemma NewNodeInfo_pods l : pods (NewNodeInfo l) = rev l.
Proof. unfold NewNodeInfo. rewrite fold_AddPod_pods. cbn. apply app_nil_r. Qed.

Lemma Resource_add_sub_l r q : Resource_sub (Resource_add q r) q = r.
Proof. destruct r, q. unfold Resource_sub, Resource_add. cbn. f_equal; lia. Qed.

Lemma Resource_add_assoc_swap p q r :
  Resource_add p (Resource_add q r) = Resource_add q (Resource_add p r).
Proof. unfold Resource_add. cbn. f_equal; lia. Qed.

Lemma sumRequests_cons p l :
  sumRequests (p :: l) = Resource_add (podRequest p) (sumRequests l).
Proof. reflexivity. Qed.

Lemma removeFirst_sum uid l rest :
  removeFirst uid l = Some rest ->
  exists p, In p l /\ podUID p = uid
            /\ sumRequests l = Resource_add (podRequest p) (sumRequests rest).
Proof.
  revert rest. induction l as [| q l IH]; intros rest; cbn [removeFirst];
    [discriminate |].
  destruct (String.eqb_spec (podUID q) uid) as [Hq | Hq].
  - intros [= <-]. exists q. repeat split; [now left | assumption].
  - destruct (removeFirst uid l) as [rest' |]; cbn [option_map]; [| discriminate].
    intros [= <-]. destruct (IH rest' eq_refl) as (p & Hin & Hp & Hsum).
    exists p. split; [now right |]. split; [assumption |].
    rewrite !sumRequests_cons, Hsum. apply Resource_add_assoc_swap.
Qed.

Lemma RemovePod_consistent n pod :
  entryConsistent n ->
  (forall p, In p (pods n) -> podUID p = podUID pod -> podRequest p = podRequest pod) ->
  entryConsistent (RemovePod n pod).
Proof.
  unfold entryConsistent, RemovePod. intros Hn Hreq.
  destruct (removeFirst (podUID pod) (pods n)) as [rest |] eqn:Hrest; [| assumption].
  destruct (removeFirst_sum _ _ _ Hrest) as (p & Hin & Hp & Hsum).
  cbn. rewrite Hn, Hsum, (Hreq p Hin Hp). apply Resource_add_sub_l.
Qed.

Lemma indexConsistent_insert (m : gmap string NodeInfo) name n :
  indexConsistent m -> entryConsistent n -> indexConsistent (<[name := n]> m).
Proof.
  intros Hm Hn k x. rewrite lookup_insert. case_decide.
  - now intros [= <-].
  - apply Hm.
Qed.

(** ** The event handlers, step by step *)

Lemma AllocateFunc_known s event n :
  nodeMap s !! taskNodeName (Task event) = Some n ->
  AllocateFunc event s =
  let nodeName := taskNodeName (Task event) in
  let pod := withNodeName (taskPod (Task event)) nodeName in
  (tt, mkEnv (ssn s) (<[nodeName := AddPod n pod]> (nodeMap s))
             (snd (UpdateTask (podLister s) (Task event) nodeName))
             (glog s ++ [InfoAllocate (podNamespace pod) (podName pod) nodeName])
             (invoked s)).
Proof.
  intros Hfound. unfold AllocateFunc, bind, updateTask, gets, putNode, log. cbn.
  now rewrite Hfound.
Qed.

Lemma AllocateFunc_unknown s event :
  nodeMap s !! taskNodeName (Task event) = None ->
  AllocateFunc event s =
  let nodeName := taskNodeName (Task event) in
  let pod := withNodeName (taskPod (Task event)) nodeName in
  (tt, mkEnv (ssn s) (nodeMap s)
             (snd (UpdateTask (podLister s) (Task event) nodeName))
             (glog s ++ [WarnAllocateNotExist (podNamespace pod) (podName pod) nodeName])
             (invoked s)).
Proof.
  intros Hfound. unfold AllocateFunc, bind, updateTask, gets, putNode, log. cbn.
  now rewrite Hfound.
Qed.

Lemma DeallocateFunc_known s event n :
  nodeMap s !! taskNodeName (Task event) = Some n ->
  DeallocateFunc event s =
  let nodeName := taskNodeName (Task event) in
  let pod := withNodeName (taskPod (Task event)) "" in
  (tt, mkEnv (ssn s) (<[nodeName := RemovePod n pod]> (nodeMap s))
             (snd (UpdateTask (podLister s) (Task event) ""))
             (glog s ++ [InfoDeallocate (podNamespace pod) (podName pod) nodeName])
             (invoked s)).
Proof.
  intros Hfound. unfold DeallocateFunc, bind, updateTask, gets, putNode, log. cbn.
  now rewrite Hfound.
Qed.

Lemma DeallocateFunc_unknown s event :
  nodeMap s !! taskNodeName (Task event) = None ->
  DeallocateFunc event s =
  let nodeName := taskNodeName (Task event) in
  let pod := withNodeName (taskPod (Task event)) "" in
  (tt, mkEnv (ssn s) (nodeMap s)
             (snd (UpdateTask (podLister s) (Task event) ""))
             (glog s ++ [WarnDeallocateNotExist (podNamespace pod) (podName pod) nodeName])
             (invoked s)).
Proof.
  intros Hfound. unfold DeallocateFunc, bind, updateTask, gets, putNode, log. cbn.
  now rewrite Hfound.
Qed.

Lemma cycle_nodeMap event s : nodeMap (cycle event s) = nodeMap s.
Proof.
  unfold cycle.
  destruct (nodeMap s !! taskNodeName (Task event)) as [n |] eqn:Hfound.
  - rewrite (AllocateFunc_known _ _ _ Hfound). cbv zeta. cbn [snd].
    erewrite DeallocateFunc_known by (cbn [nodeMap]; apply lookup_insert_eq).
    cbv zeta. cbn [snd nodeMap].
    rewrite RemovePod_AddPod by reflexivity.
    rewrite insert_insert_eq. now apply insert_id.
  - rewrite (AllocateFunc_unknown _ _ Hfound). cbv zeta. cbn [snd].
    now rewrite DeallocateFunc_unknown by (cbn [nodeMap]; assumption).
Qed.

Lemma runCycles_nodeMap events s : nodeMap (runCycles events s) = nodeMap s.
Proof.
  unfold runCycles. revert s.
  induction events as [| event events IH]; intros s; cbn; [reflexivity |].
  now rewrite IH, cycle_nodeMap.
Qed.

Lemma AllocateFunc_consistent s event :
  indexConsistent (nodeMap s) -> indexConsistent (nodeMap (snd (AllocateFunc event s))).
Proof.
  intros Hs.
  destruct (nodeMap s !! taskNodeName (Task event)) as [n |] eqn:Hfound.
  - rewrite (AllocateFunc_known _ _ _ Hfound). cbv zeta. cbn [snd nodeMap].
    apply indexConsistent_insert; [assumption |].
    apply AddPod_consistent. exact (Hs _ _ Hfound).
  - now rewrite (AllocateFunc_unknown _ _ Hfound).
Qed.

Lemma DeallocateFunc_consistent s event :
  indexConsistent (nodeMap s) ->
  (forall n p,
      nodeMap s !! taskNodeName (Task event) = Some n -> In p (pods n) ->
      podUID p = podUID (taskPod (Task event)) ->
      podRequest p = podRequest (taskPod (Task event))) ->
  indexConsistent (nodeMap (snd (DeallocateFunc event s))).
Proof.
  intros Hs Hreq.
  destruct (nodeMap s !! taskNodeName (Task event)) as [n |] eqn:Hfound.
  - rewrite (DeallocateFunc_known _ _ _ Hfound). cbv zeta. cbn [snd nodeMap].
    apply indexConsistent_insert; [assumption |].
    apply RemovePod_consistent; [exact (Hs _ _ Hfound) |].
    intros p Hin Hp. exact (Hreq n p eq_refl Hin Hp).
  - now rewrite (DeallocateFunc_unknown _ _ Hfound).
Qed.

(** C7.  For a task whose node is in the index, the allocate handler adds
    exactly the task's request to the node's aggregate usage (and leaves every
    other entry alone); the matching deallocate handler then restores the
    node's entry, and with it the whole index, to its prior value.  Hence the
    index is the same after any number of bind/unbind cycles, and if every
    entry's aggregate usage equals the sum of the requests of its bound pods
    before, it does so after each handler of each cycle.  A deallocate
    handler on its own keeps that invariant as well, provided the pods of the
    entry that carry the task's UID carry the task's request. *)
Theorem allocate_deallocate_cycle s event n :
  nodeMap s !! taskNodeName (Task event) = Some n ->
  (exists n1,
      nodeMap (snd (AllocateFunc event s)) !! taskNodeName (Task event) = Some n1
      /\ requestedResource n1
         = Resource_add (requestedResource n) (podRequest (taskPod (Task event)))
      /\ pods n1
         = withNodeName (taskPod (Task event)) (taskNodeName (Task event)) :: pods n
      /\ forall other, other <> taskNodeName (Task event) ->
           nodeMap (snd (AllocateFunc event s)) !! other = nodeMap s !! other)
  /\ nodeMap (cycle event s) !! taskNodeName (Task event) = Some n
  /\ nodeMap (cycle event s) = nodeMap s
  /\ (forall events, nodeMap (runCycles events s) = nodeMap s)
  /\ (indexConsistent (nodeMap s) ->
      indexConsistent (nodeMap (snd (AllocateFunc event s)))
      /\ indexConsistent (nodeMap (cycle event s))
      /\ (forall events event',
            indexConsistent (nodeMap (runCycles events s))
            /\ indexConsistent (nodeMap (snd (AllocateFunc event' (runCycles events s)))))
      /\ ((forall p, In p (pods n) ->
                     podUID p = podUID (taskPod (Task event)) ->
                     podRequest p = podRequest (taskPod (Task event))) ->
          indexConsistent (nodeMap (snd (DeallocateFunc event s))))).
Proof.
  intros Hfound. repeat split.
  - rewrite (AllocateFunc_known _ _ _ Hfound). cbv zeta. cbn [snd nodeMap].
    eexists. split; [apply lookup_insert_eq |]. split; [reflexivity |].
    split; [reflexivity |].
    intros other Hother. now apply lookup_insert_ne.
  - now rewrite cycle_nodeMap.
  - apply cycle_nodeMap.
  - intros events. apply runCycles_nodeMap.
  - now apply AllocateFunc_consistent.
  - now rewrite cycle_nodeMap.
  - now rewrite runCycles_nodeMap.
  - apply AllocateFunc_consistent. now rewrite runCycles_nodeMap.
  - intros Hreq. apply DeallocateFunc_consistent; [assumption |].
    intros n' p Hn'. rewrite Hfound in Hn'. injection Hn' as <-. apply Hreq.
Qed.

Lemma allocate_deallocate_cycle_witness :
  nodeMap Sample.indexed !! taskNodeName Sample.taskB
    = Some (SetNode (NewNodeInfo [Sample.podA]) Sample.node1)
  /\ nodeMap (cycle (mkEvent Sample.taskB) Sample.indexed) = nodeMap Sample.indexed.
Proof.
  split; [reflexivity |].
  apply (allocate_deallocate_cycle Sample.indexed (mkEvent Sample.taskB)
           (SetNode (NewNodeInfo [Sample.podA]) Sample.node1)).
  reflexivity.
Defined.

(** C6, as amended.  When the target node of an allocate or deallocate event
    is not in the index, the handler logs a warning and leaves the index, the
    session and the call trace as they are; the pod lister, however, is
    updated as for any other event: it records the task's pod with the node
    name of the event (allocate) or with the empty node name (deallocate). *)
Theorem unknown_node_event s event :
  nodeMap s !! taskNodeName (Task event) = None ->
  (nodeMap (snd (AllocateFunc event s)) = nodeMap s
   /\ ssn (snd (AllocateFunc event s)) = ssn s
   /\ invoked (snd (AllocateFunc event s)) = invoked s
   /\ glog (snd (AllocateFunc event s))
      = glog s ++ [WarnAllocateNotExist (podNamespace (taskPod (Task event)))
                     (podName (taskPod (Task event))) (taskNodeName (Task event))]
   /\ CachedPods (podLister (snd (AllocateFunc event s)))
      = <[UID (Task event) :=
            withNodeName (taskPod (Task event)) (taskNodeName (Task event))]>
          (CachedPods (podLister s)))
  /\ (nodeMap (snd (DeallocateFunc event s)) = nodeMap s
      /\ ssn (snd (DeallocateFunc event s)) = ssn s
      /\ invoked (snd (DeallocateFunc event s)) = invoked s
      /\ glog (snd (DeallocateFunc event s))
         = glog s ++ [WarnDeallocateNotExist (podNamespace (taskPod (Task event)))
                        (podName (taskPod (Task event))) (taskNodeName (Task event))]
      /\ CachedPods (podLister (snd (DeallocateFunc event s)))
         = <[UID (Task event) := withNodeName (taskPod (Task event)) ""]>
             (CachedPods (podLister s))).
Proof.
  intros Hfound.
  rewrite (AllocateFunc_unknown _ _ Hfound), (DeallocateFunc_unknown _ _ Hfound).
  cbn. repeat split.
Qed.

Lemma unknown_node_event_witness :
  nodeMap Sample.indexed !! taskNodeName Sample.taskG = None
  /\ nodeMap (snd (AllocateFunc (mkEvent Sample.taskG) Sample.indexed))
     = nodeMap Sample.indexed.
Proof.
  split; [reflexivity |].
  apply (unknown_node_event Sample.indexed (mkEvent Sample.taskG)).
  reflexivity.
Defined.

(** C6, as stated, fails: an allocate event for a node that is not in the
    index changes the pod lister, and a scoring call that succeeded before the
    event fails after it. *)
Lemma unknown_node_event_changes_pod_lister :
  nodeMap Sample.indexed !! taskNodeName Sample.taskG = None
  /\ podLister (snd (AllocateFunc (mkEvent Sample.taskG) Sample.indexed))
     <> podLister Sample.indexed
  /\ fst (Sample.score Sample.unitWeight Sample.taskB Sample.apiNode1 Sample.indexed)
     = (Float64.of_int 14, None)
  /\ fst (Sample.score Sample.unitWeight Sample.taskB Sample.apiNode1
            (snd (AllocateFunc (mkEvent Sample.taskG) Sample.indexed)))
     = (Float64.zero, Some "failed to find node <ghost>").
Proof.
  split; [reflexivity |]. split; [| split; vm_compute; reflexivity].
  intros Heq.
  apply (f_equal (fun pl => CachedPods pl !! "uid-g")) in Heq.
  vm_compute in Heq. discriminate Heq.
Qed.

(** ** The weighted sum *)

Lemma contribution_exact score weight :
  Z.abs (score * weight) < 2 ^ 53 -> contribution score weight = Float64.of_int (score * weight).
Proof.
  intros Hb. unfold contribution. rewrite GoIntFacts.mul_exact; [reflexivity |].
  unfold GoInt.inRange, GoInt.minInt, GoInt.maxInt. lia.
Qed.

Lemma contribution_weight_0 score : contribution score 0 = Float64.zero.
Proof. unfold contribution. now rewrite GoIntFacts.mul_0_r. Qed.


Lemma weightedSum_exact w lr br na ipa :
  termsBounded w lr br na ipa ->
  weightedSum w lr br na ipa = Float64.of_int (exactSum w lr br na ipa).
Proof.
  intros (H1 & H2 & H3 & H4). unfold weightedSum, exactSum.
  rewrite !contribution_exact by lia.
  change Float64.zero with (Float64.of_int 0).
  rewrite !Float64Facts.add_of_int by (cbn [Z.add]; lia).
  reflexivity.
Qed.


(** ** The scoring function, step by step *)

Section ScoringFacts.

Variable LeastRequestedPriorityMap : Pod -> NodeInfo -> HostPriority * option error.
Variable BalancedResourceAllocationMap : Pod -> NodeInfo -> HostPriority * option error.
Variable CalculateNodeAffinityPriorityMap : Pod -> NodeInfo -> HostPriority * option error.
Variable NewInterPodAffinityPriority :
  (string -> option Node * option error) -> NodeLister -> PodLister -> Z ->
  Pod -> gmap string NodeInfo -> list Node -> HostPriorityList * option error.
Variable mapRange : gmap string ApiNodeInfo -> list (string * ApiNodeInfo).
Variable nodeSlice : list Node.

Local Abbreviation affinityScores :=
  (interPodAffinityScores NewInterPodAffinityPriority mapRange nodeSlice).
Local Abbreviation scoreOn w :=
  (scoreAgainst LeastRequestedPriorityMap BalancedResourceAllocationMap
     CalculateNodeAffinityPriorityMap NewInterPodAffinityPriority mapRange w nodeSlice).
Local Abbreviation score w :=
  (nodeOrderFn LeastRequestedPriorityMap BalancedResourceAllocationMap
     CalculateNodeAffinityPriorityMap NewInterPodAffinityPriority mapRange w nodeSlice).

(** The entry a scoring call for [node] works on in state [s]. *)
Local Abbreviation entryFor s node := (fst (resolveNodeInfo node s)).

Lemma resolveNodeInfo_found s node n :
  nodeMap s !! Name node = Some n -> resolveNodeInfo node s = (n, s).
Proof. intros Hfound. unfold resolveNodeInfo, bind, gets, ret. now rewrite Hfound. Qed.

Lemma resolveNodeInfo_absent s node :
  nodeMap s !! Name node = None ->
  resolveNodeInfo node s
  = (SetNode (NewNodeInfo (Pods node)) (apiNode node),
     extend s [] [WarnGenerateNodeInfo (Name node)]).
Proof.
  intros Hfound. unfold resolveNodeInfo, bind, gets, ret, log, extend.
  rewrite Hfound. cbn. now rewrite app_nil_r.
Qed.

Lemma resolveNodeInfo_state s node :
  exists entries, snd (resolveNodeInfo node s) = extend s [] entries.
Proof.
  destruct (nodeMap s !! Name node) as [n |] eqn:Hfound.
  - exists []. rewrite (resolveNodeInfo_found _ _ _ Hfound). unfold extend. cbn.
    rewrite !app_nil_r. now destruct s.
  - eexists. now rewrite (resolveNodeInfo_absent _ _ Hfound).
Qed.

Lemma affinityScores_extend s calls entries task :
  affinityScores (extend s calls entries) task = affinityScores s task.
Proof. reflexivity. Qed.

Lemma extend_extend s calls entries calls' entries' :
  extend (extend s calls entries) calls' entries'
  = extend s (calls ++ calls') (entries ++ entries').
Proof. unfold extend. cbn. now rewrite <- !app_assoc. Qed.

Lemma scoreAgainst_success w task node n s h1 h2 h3 l4 :
  LeastRequestedPriorityMap (taskPod task) n = (h1, None) ->
  BalancedResourceAllocationMap (taskPod task) n = (h2, None) ->
  CalculateNodeAffinityPriorityMap (taskPod task) n = (h3, None) ->
  affinityScores s task = (l4, None) ->
  scoreOn w task node n s
  = let total := weightedSum w (Score h1) (Score h2) (Score h3)
                   (getInterPodAffinityScore (Name node) l4) in
    ((total, None), extend s (callsThrough InterPodAffinity) [InfoTotalScore total]).
Proof.
  intros H1 H2 H3 H4.
  unfold scoreAgainst, interPodAffinity, bind, call, gets, ret, log.
  rewrite H1, H2, H3. cbn.
  change (interPodAffinityScores _ _ _ _ task) with (affinityScores s task).
  rewrite H4. unfold extend. cbn. now rewrite <- !app_assoc.
Qed.

Lemma scoreAgainst_failure w task node n s which e :
  firstFailure (LeastRequestedPriorityMap (taskPod task) n)
               (BalancedResourceAllocationMap (taskPod task) n)
               (CalculateNodeAffinityPriorityMap (taskPod task) n)
               (affinityScores s task) = Some (which, e) ->
  scoreOn w task node n s
  = ((Float64.zero, Some e),
     extend s (callsThrough which) [WarnPriorityFailed which e]).
Proof.
  unfold firstFailure, scoreAgainst, interPodAffinity, bind, call, gets, ret, log.
  destruct (LeastRequestedPriorityMap (taskPod task) n) as [h1 [e1 |]]; cbn.
  { intros [= <- <-]. reflexivity. }
  destruct (BalancedResourceAllocationMap (taskPod task) n) as [h2 [e2 |]]; cbn.
  { intros [= <- <-]. unfold extend. cbn. now rewrite <- !app_assoc. }
  destruct (CalculateNodeAffinityPriorityMap (taskPod task) n) as [h3 [e3 |]]; cbn.
  { intros [= <- <-]. unfold extend. cbn. now rewrite <- !app_assoc. }
  change (interPodAffinityScores _ _ _ _ task) with (affinityScores s task).
  destruct (affinityScores s task) as [l4 [e4 |]]; cbn.
  { intros [= <- <-]. unfold extend. cbn. now rewrite <- !app_assoc. }
  discriminate.
Qed.

Lemma nodeOrderFn_unfold w task node s :
  score w task node s
  = scoreOn w task node (entryFor s node) (snd (resolveNodeInfo node s)).
Proof.
  unfold nodeOrderFn, bind. now destruct (resolveNodeInfo node s).
Qed.

Lemma firstFailure_None {A B C D} (r1 : A * option error) (r2 : B * option error)
    (r3 : C * option error) (r4 : D * option error) :
  firstFailure r1 r2 r3 r4 = None ->
  r1 = (fst r1, None) /\ r2 = (fst r2, None) /\ r3 = (fst r3, None) /\ r4 = (fst r4, None).
Proof.
  unfold firstFailure.
  destruct r1 as [? [|]], r2 as [? [|]], r3 as [? [|]], r4 as [? [|]]; cbn;
    intros; try discriminate; repeat split.
Qed.

Lemma scoreAgainst_run w task node n s :
  exists calls entries,
    scoreOn w task node n s
    = (verdict w (Name node)
         (LeastRequestedPriorityMap (taskPod task) n)
         (BalancedResourceAllocationMap (taskPod task) n)
         (CalculateNodeAffinityPriorityMap (taskPod task) n)
         (affinityScores s task),
       extend s calls entries).
Proof.
  unfold verdict.
  destruct (firstFailure (LeastRequestedPriorityMap (taskPod task) n)
              (BalancedResourceAllocationMap (taskPod task) n)
              (CalculateNodeAffinityPriorityMap (taskPod task) n)
              (affinityScores s task)) as [[which e] |] eqn:Hfail.
  - do 2 eexists. exact (scoreAgainst_failure w task node n s which e Hfail).
  - apply firstFailure_None in Hfail as (H1 & H2 & H3 & H4).
    do 2 eexists. exact (scoreAgainst_success w task node n s _ _ _ _ H1 H2 H3 H4).
Qed.

Lemma nodeOrderFn_run w task node s :
  exists calls entries,
    score w task node s
    = (verdict w (Name node)
         (LeastRequestedPriorityMap (taskPod task) (entryFor s node))
         (BalancedResourceAllocationMap (taskPod task) (entryFor s node))
         (CalculateNodeAffinityPriorityMap (taskPod task) (entryFor s node))
         (affinityScores s task),
       extend s calls entries).
Proof.
  rewrite nodeOrderFn_unfold.
  destruct (resolveNodeInfo_state s node) as [entries0 ->].
  destruct (scoreAgainst_run w task node (entryFor s node) (extend s [] entries0))
    as (calls & entries & ->).
  rewrite extend_extend. now do 2 eexists.
Qed.

Lemma entryFor_extend s calls entries node :
  entryFor (extend s calls entries) node = entryFor s node.
Proof.
  unfold resolveNodeInfo, bind, gets, ret, log. cbn.
  now destruct (nodeMap s !! Name node).
Qed.

Lemma nodeOrderFn_fst w task node s :
  fst (score w task node s)
  = verdict w (Name node)
      (LeastRequestedPriorityMap (taskPod task) (entryFor s node))
      (BalancedResourceAllocationMap (taskPod task) (entryFor s node))
      (CalculateNodeAffinityPriorityMap (taskPod task) (entryFor s node))
      (affinityScores s task).
Proof. destruct (nodeOrderFn_run w task node s) as (calls & entries & ->). reflexivity. Qed.

Lemma nodeOrderFn_frame w task node s :
  ssn (snd (score w task node s)) = ssn s
  /\ nodeMap (snd (score w task node s)) = nodeMap s
  /\ podLister (snd (score w task node s)) = podLister s.
Proof.
  destruct (nodeOrderFn_run w task node s) as (calls & entries & ->). repeat split.
Qed.

Lemma verdict_success w name h1 h2 h3 (l4 : HostPriorityList) :
  verdict w name (h1, None) (h2, None) (h3, None) (l4, None)
  = (weightedSum w (Score h1) (Score h2) (Score h3) (getInterPodAffinityScore name l4), None).
Proof. reflexivity. Qed.

Lemma getInterPodAffinityScore_first name pre hp post :
  Host hp = name -> Forall (fun x => Host x <> name) pre ->
  getInterPodAffinityScore name (pre ++ hp :: post) = Score hp.
Proof.
  intros Hhp Hpre. induction Hpre as [| x pre Hx _ IH]; cbn.
  - now rewrite Hhp, String.eqb_refl.
  - apply String.eqb_neq in Hx. now rewrite Hx.
Qed.

Lemma getInterPodAffinityScore_none name (l : HostPriorityList) :
  Forall (fun x => Host x <> name) l -> getInterPodAffinityScore name l = 0.
Proof.
  intros Hl. induction Hl as [| x l Hx _ IH]; cbn; [reflexivity |].
  apply String.eqb_neq in Hx. now rewrite Hx.
Qed.



(** C4, as amended.  When the candidate node is not in the index, the scoring
    call logs a warning and works on an entry generated from the candidate
    node itself: the node's own pods are bound in it, with their requests
    added up, and its node object is set.  The entry is empty exactly when
    the node hosts no pod.  It is not inserted into the index, and the call
    returns an error only if one of the priority functions does. *)
Theorem nodeOrderFn_unknown_node w task node s :
  nodeMap s !! Name node = None ->
  entryFor s node = SetNode (NewNodeInfo (Pods node)) (apiNode node)
  /\ glog (snd (resolveNodeInfo node s)) = glog s ++ [WarnGenerateNodeInfo (Name node)]
  /\ score w task node s
     = scoreOn w task node (SetNode (NewNodeInfo (Pods node)) (apiNode node))
         (extend s [] [WarnGenerateNodeInfo (Name node)])
  /\ fst (score w task node s)
     = verdict w (Name node)
         (LeastRequestedPriorityMap (taskPod task)
            (SetNode (NewNodeInfo (Pods node)) (apiNode node)))
         (BalancedResourceAllocationMap (taskPod task)
            (SetNode (NewNodeInfo (Pods node)) (apiNode node)))
         (CalculateNodeAffinityPriorityMap (taskPod task)
            (SetNode (NewNodeInfo (Pods node)) (apiNode node)))
         (affinityScores s task)
  /\ nodeMap (snd (score w task node s)) !! Name node = None
  /\ (pods (entryFor s node) = rev (Pods node)
      /\ entryConsistent (entryFor s node))
  /\ (Pods node = [] <->
      entryFor s node = mkNodeInfo (Some (apiNode node)) [] Resource_zero).
Proof.
  intros Habsent.
  pose proof (resolveNodeInfo_absent s node Habsent) as Hres.
  assert (Hentry : entryFor s node = SetNode (NewNodeInfo (Pods node)) (apiNode node))
    by now rewrite Hres.
  split; [exact Hentry |]. split; [now rewrite Hres |]. split.
  { now rewrite nodeOrderFn_unfold, Hres. }
  split.
  { now rewrite nodeOrderFn_fst, Hentry. }
  split.
  { destruct (nodeOrderFn_frame w task node s) as (_ & -> & _). exact Habsent. }
  rewrite Hentry. split.
  { split; [apply NewNodeInfo_pods |].
    exact (NewNodeInfo_consistent (Pods node)). }
  split.
  - now intros ->.
  - intros Hempty. apply (f_equal pods) in Hempty. cbn in Hempty.
    rewrite NewNodeInfo_pods in Hempty.
    apply (f_equal (@rev Pod)) in Hempty. now rewrite rev_involutive in Hempty.
Qed.

(** C5.  The inter-task-affinity score extracted for a node name is the score
    of the first entry of the result list whose host is that name, and 0 when
    the list has no such entry; in the latter case the scoring call still
    succeeds, with the inter-task-affinity sub-score 0. *)
Theorem getInterPodAffinityScore_spec name (l : HostPriorityList) :
  (forall pre hp post,
      l = pre ++ hp :: post -> Host hp = name ->
      Forall (fun x => Host x <> name) pre ->
      getInterPodAffinityScore name l = Score hp)
  /\ (Forall (fun x => Host x <> name) l -> getInterPodAffinityScore name l = 0)
  /\ (forall w task node s h1 h2 h3,
        Name node = name ->
        LeastRequestedPriorityMap (taskPod task) (entryFor s node) = (h1, None) ->
        BalancedResourceAllocationMap (taskPod task) (entryFor s node) = (h2, None) ->
        CalculateNodeAffinityPriorityMap (taskPod task) (entryFor s node) = (h3, None) ->
        affinityScores s task = (l, None) ->
        Forall (fun x => Host x <> name) l ->
        fst (score w task node s)
        = (weightedSum w (Score h1) (Score h2) (Score h3) 0, None)).
Proof.
  split; [| split].
  - intros pre hp post -> Hhp Hpre. now apply getInterPodAffinityScore_first.
  - apply getInterPodAffinityScore_none.
  - intros w task node s h1 h2 h3 Hname H1 H2 H3 H4 Hnone.
    rewrite nodeOrderFn_fst, H1, H2, H3, H4, verdict_success, Hname.
    now rewrite getInterPodAffinityScore_none.
Qed.

Lemma exactSum_scaleWeight which k w lr br na ipa :
  exactSum (scaleWeight which k w) lr br na ipa
  = exactSum w lr br na ipa
    + (k - 1) * (subScore which lr br na ipa * weightOf which w).
Proof. destruct which; unfold exactSum; cbn; lia. Qed.

Lemma weightedSum_zero_weight w lr lr' br na ipa :
  leastReqWeight w = 0 ->
  weightedSum w lr br na ipa = weightedSum w lr' br na ipa.
Proof. intros Hw. unfold weightedSum. now rewrite Hw, !contribution_weight_0. Qed.

(** C8, as amended.  Let scoring succeed, and let every weighted sub-score be
    below [2 ^ 51] in absolute value, both under the weights [w] and under the
    weights in which the weight of one priority function is multiplied by
    [k].  Then both scores are exact, the contribution of that priority
    function under the scaled weight is [k] times its product under [w], and
    the score under the scaled weight exceeds the score under [w] by [k - 1]
    times that product.  Independently of any bound, a Least-Requested weight
    of 0 makes the Least-Requested contribution 0, and the score the same for
    every raw Least-Requested sub-score. *)
Theorem nodeOrderFn_linear_in_weight w which k task node s h1 h2 h3 l4 :
  LeastRequestedPriorityMap (taskPod task) (entryFor s node) = (h1, None) ->
  BalancedResourceAllocationMap (taskPod task) (entryFor s node) = (h2, None) ->
  CalculateNodeAffinityPriorityMap (taskPod task) (entryFor s node) = (h3, None) ->
  affinityScores s task = (l4, None) ->
  (termsBounded w (Score h1) (Score h2) (Score h3)
     (getInterPodAffinityScore (Name node) l4) ->
   termsBounded (scaleWeight which k w) (Score h1) (Score h2) (Score h3)
     (getInterPodAffinityScore (Name node) l4) ->
   fst (score w task node s)
   = (Float64.of_int (exactSum w (Score h1) (Score h2) (Score h3)
                        (getInterPodAffinityScore (Name node) l4)), None)
   /\ fst (score (scaleWeight which k w) task node s)
      = (Float64.of_int
           (exactSum w (Score h1) (Score h2) (Score h3)
              (getInterPodAffinityScore (Name node) l4)
            + (k - 1) * (subScore which (Score h1) (Score h2) (Score h3)
                           (getInterPodAffinityScore (Name node) l4)
                         * weightOf which w)), None)
   /\ contribution (subScore which (Score h1) (Score h2) (Score h3)
                      (getInterPodAffinityScore (Name node) l4))
                   (weightOf which (scaleWeight which k w))
      = Float64.of_int
          (k * (subScore which (Score h1) (Score h2) (Score h3)
                  (getInterPodAffinityScore (Name node) l4)
                * weightOf which w)))
  /\ (leastReqWeight w = 0 ->
      contribution (Score h1) (leastReqWeight w) = Float64.zero
      /\ forall lr,
          fst (score w task node s)
          = (weightedSum w lr (Score h2) (Score h3)
               (getInterPodAffinityScore (Name node) l4), None)).
Proof.
  intros H1 H2 H3 H4. split.
  - intros Hw Hkw.
    rewrite !nodeOrderFn_fst, H1, H2, H3, H4, !verdict_success.
    rewrite !weightedSum_exact by assumption.
    rewrite exactSum_scaleWeight. split; [reflexivity |]. split; [reflexivity |].
    destruct Hkw as (B1 & B2 & B3 & B4).
    destruct which; cbn in *; rewrite contribution_exact by lia; f_equal; lia.
  - intros Hzero. split.
    + rewrite Hzero. apply contribution_weight_0.
    + intros lr. rewrite nodeOrderFn_fst, H1, H2, H3, H4, verdict_success.
      f_equal. now apply weightedSum_zero_weight.
Qed.

Lemma entryFor_nodeMap s s' node :
  nodeMap s' = nodeMap s -> entryFor s' node = entryFor s node.
Proof.
  intros Heq. unfold resolveNodeInfo, bind, gets, ret, log. rewrite Heq.
  now destruct (nodeMap s !! Name node).
Qed.



End ScoringFacts.

(** ** The weights *)

Lemma Atoi_inRange s v : Atoi s = Some v -> GoInt.inRange v.
Proof.
  unfold Atoi.
  destruct (match s with
            | String "+"%char rest => (false, rest)
            | String "-"%char rest => (true, rest)
            | _ => (false, s)
            end) as [neg body].
  destruct body; [discriminate |].
  destruct (parseDigits 0 (String a body)) as [n |]; [| discriminate].
  destruct ((GoInt.minInt <=? (if neg then - n else n))
            && ((if neg then - n else n) <=? GoInt.maxInt)) eqn:Hrange; [| discriminate].
  intros [= <-]. apply andb_true_iff in Hrange as [Hlo Hhi].
  apply Z.leb_le in Hlo, Hhi. now split.
Qed.

Lemma GetInt_spec_weight args key : GetInt args 1 key = spec_weight args key.
Proof.
  unfold GetInt, spec_weight. destruct (args !! key) as [argv |]; [| reflexivity].
  now destruct (Atoi argv).
Qed.

Lemma spec_weight_inRange args key : GoInt.inRange (spec_weight args key).
Proof.
  unfold spec_weight. destruct (args !! key) as [argv |].
  - destruct (Atoi argv) as [v |] eqn:Hv; cbn.
    + now apply Atoi_inRange in Hv.
    + unfold GoInt.inRange, GoInt.minInt, GoInt.maxInt. lia.
  - unfold GoInt.inRange, GoInt.minInt, GoInt.maxInt. lia.
Qed.

Lemma calculateWeight_fields args :
  calculateWeight args
  = mkWeight (spec_weight args LeastRequestedWeight) (spec_weight args NodeAffinityWeight)
             (spec_weight args PodAffinityWeight) (spec_weight args BalancedResourceWeight).
Proof. unfold calculateWeight. cbn. now rewrite !GetInt_spec_weight. Qed.

Lemma spec_weight_insert_ne args key key' value :
  key' <> key -> spec_weight (<[key' := value]> args) key = spec_weight args key.
Proof. intros Hne. unfold spec_weight. now rewrite lookup_insert_ne. Qed.

Lemma spec_weight_delete_ne args key key' :
  key' <> key -> spec_weight (delete key' args) key = spec_weight args key.
Proof. intros Hne. unfold spec_weight. now rewrite lookup_delete_ne. Qed.

(** C3.  For every argument bag, each of the four weights that
    [calculateWeight] returns is the parsed value of its key when the key is
    present and parseable as an integer, and 1 otherwise; every weight is a Go
    [int]; and a key other than the four recognised ones has no effect,
    whether it is added, changed or removed.  [calculateWeight] is a total
    function: it has a result for every argument bag. *)
Theorem calculateWeight_spec (args : Arguments) :
  nodeAffinityWeight (calculateWeight args) = spec_weight args "nodeaffinity.weight"
  /\ podAffinityWeight (calculateWeight args) = spec_weight args "podaffinity.weight"
  /\ leastReqWeight (calculateWeight args) = spec_weight args "leastrequested.weight"
  /\ balancedRescourceWeight (calculateWeight args)
     = spec_weight args "balancedresource.weight"
  /\ (GoInt.inRange (nodeAffinityWeight (calculateWeight args))
      /\ GoInt.inRange (podAffinityWeight (calculateWeight args))
      /\ GoInt.inRange (leastReqWeight (calculateWeight args))
      /\ GoInt.inRange (balancedRescourceWeight (calculateWeight args)))
  /\ (forall key value,
        ~ In key recognizedKeys ->
        calculateWeight (<[key := value]> args) = calculateWeight args
        /\ calculateWeight (delete key args) = calculateWeight args).
Proof.
  rewrite calculateWeight_fields. cbn.
  do 4 (split; [reflexivity |]).
  split; [repeat split; apply spec_weight_inRange |].
  intros key value Hkey. unfold recognizedKeys in Hkey. cbn in Hkey.
  rewrite !calculateWeight_fields.
  split.
  - rewrite !spec_weight_insert_ne by (intros ->; tauto). reflexivity.
  - rewrite !spec_weight_delete_ne by (intros ->; tauto). reflexivity.
Qed.

Lemma calculateWeight_spec_witness :
  ~ In "foo" recognizedKeys
  /\ calculateWeight {[ "leastrequested.weight" := "0"; "podaffinity.weight" := "x2";
                        "nodeaffinity.weight" := "-3"; "foo" := "7" ]}
     = mkWeight 0 (-3) 1 1
  /\ calculateWeight
       (<[ "foo" := "9" ]>
          ({[ "leastrequested.weight" := "0"; "podaffinity.weight" := "x2";
              "nodeaffinity.weight" := "-3"; "foo" := "7" ]} : Arguments))
     = calculateWeight {[ "leastrequested.weight" := "0"; "podaffinity.weight" := "x2";
                          "nodeaffinity.weight" := "-3"; "foo" := "7" ]}.
Proof.
  assert (Hfoo : ~ In "foo" recognizedKeys).
  { unfold recognizedKeys. cbn. intros [H | [H | [H | [H | []]]]]; discriminate H. }
  split; [exact Hfoo |]. split; [vm_compute; reflexivity |].
  apply (calculateWeight_spec
           {[ "leastrequested.weight" := "0"; "podaffinity.weight" := "x2";
              "nodeaffinity.weight" := "-3"; "foo" := "7" ]}).
  exact Hfoo.
Defined.

(** ** The node-capacity lookup *)

Lemma hasUnboundPod_true l :
  hasUnboundPod l = true <-> exists pod, In pod l /\ SpecNodeName pod = "".
Proof.
  induction l as [| p l IH]; cbn.
  - split; [discriminate | intros (? & [] & _)].
  - destruct (String.eqb_spec (SpecNodeName p) "") as [Hp | Hp].
    + split; [| reflexivity]. intros _. exists p. now split; [left |].
    + rewrite IH. split.
      * intros (pod & Hin & Hpod). exists pod. now split; [right |].
      * intros (pod & [-> | Hin] & Hpod); [contradiction |]. now exists pod.
Qed.

Lemma hasUnboundPod_hosts cacheNode :
  hasUnboundPod (Pods cacheNode) = true <-> hostsUnboundPod cacheNode.
Proof. apply hasUnboundPod_true. Qed.

Lemma firstWithUnboundPod_first pre k cacheNode post :
  hostsUnboundPod cacheNode ->
  Forall (fun x => ~ hostsUnboundPod (snd x)) pre ->
  firstWithUnboundPod (pre ++ (k, cacheNode) :: post) = Some (apiNode cacheNode).
Proof.
  intros Hhost Hpre. induction Hpre as [| [k' x] pre Hx _ IH]; cbn.
  - apply hasUnboundPod_hosts in Hhost. now rewrite Hhost.
  - cbn in Hx. rewrite <- hasUnboundPod_hosts in Hx.
    destruct (hasUnboundPod (Pods x)); [contradiction | exact IH].
Qed.

Lemma firstWithUnboundPod_None visited :
  firstWithUnboundPod visited = None
  <-> Forall (fun x => ~ hostsUnboundPod (snd x)) visited.
Proof.
  induction visited as [| [k x] visited IH]; cbn.
  - split; [constructor | reflexivity].
  - destruct (hasUnboundPod (Pods x)) eqn:Hx.
    + split; [discriminate |]. intros Hall. inversion Hall as [| ? ? Hnot _]; subst.
      cbn in Hnot. apply hasUnboundPod_hosts in Hx. contradiction.
    + rewrite IH. split.
      * intros Hall. constructor; [| assumption]. cbn.
        rewrite <- hasUnboundPod_hosts, Hx. discriminate.
      * intros Hall. now inversion Hall.
Qed.

(** C10.  Let the [range] statement visit the entries of the session's node
    map in any order.  If the name is in the map, [GetNodeInfo] returns its
    node, without error.  If it is not, [GetNodeInfo] returns, without error,
    the node of the first entry visited that hosts a pod with an empty node
    name; it returns an error exactly when no node of the map hosts such a
    pod. *)
Theorem GetNodeInfo_spec visited c name :
  visited ≡ₚ map_to_list (Nodes (session c)) ->
  (forall cacheNode,
      Nodes (session c) !! name = Some cacheNode ->
      GetNodeInfo visited c name = (Some (apiNode cacheNode), None))
  /\ (Nodes (session c) !! name = None ->
      (forall pre k cacheNode post,
          visited = pre ++ (k, cacheNode) :: post ->
          hostsUnboundPod cacheNode ->
          Forall (fun x => ~ hostsUnboundPod (snd x)) pre ->
          GetNodeInfo visited c name = (Some (apiNode cacheNode), None))
      /\ (snd (GetNodeInfo visited c name) <> None
          <-> forall k cacheNode,
                Nodes (session c) !! k = Some cacheNode -> ~ hostsUnboundPod cacheNode)
      /\ (snd (GetNodeInfo visited c name) <> None ->
          GetNodeInfo visited c name
          = (None, Some (String.append "failed to find node <" (String.append name ">"))))).
Proof.
  intros Hvisited. split.
  - intros cacheNode Hfound. unfold GetNodeInfo. now rewrite Hfound.
  - intros Habsent. unfold GetNodeInfo. rewrite Habsent. split; [| split].
    + intros pre k cacheNode post -> Hhost Hpre.
      now rewrite firstWithUnboundPod_first.
    + destruct (firstWithUnboundPod visited) as [n |] eqn:Hfirst; cbn.
      * split; [congruence |]. intros Hnone. exfalso.
        assert (Hall : Forall (fun x => ~ hostsUnboundPod (snd x)) visited).
        { apply Forall_forall. intros [k x] Hin. cbn. apply (Hnone k).
          apply elem_of_map_to_list. now rewrite <- Hvisited. }
        apply firstWithUnboundPod_None in Hall. congruence.
      * split; [| congruence]. intros _ k cacheNode Hk.
        apply firstWithUnboundPod_None in Hfirst.
        rewrite Forall_forall in Hfirst.
        apply (Hfirst (k, cacheNode)).
        rewrite Hvisited. now apply elem_of_map_to_list.
    + destruct (firstWithUnboundPod visited) as [n |]; cbn; [congruence | reflexivity].
Qed.

Lemma GetNodeInfo_spec_witness :
  map_to_list (Nodes Sample.session2) ≡ₚ map_to_list (Nodes Sample.session2)
  /\ GetNodeInfo (map_to_list (Nodes Sample.session2))
       (mkCachedNodeInfo Sample.session2) "node-1" = (Some Sample.node1, None)
  /\ GetNodeInfo (map_to_list (Nodes Sample.session2))
       (mkCachedNodeInfo Sample.session2) "ghost" = (Some Sample.node2, None)
  /\ GetNodeInfo (map_to_list (Nodes Sample.session1))
       (mkCachedNodeInfo Sample.session1) "ghost"
     = (None, Some "failed to find node <ghost>").
Proof.
  split; [reflexivity |]. split; [| split; vm_compute; reflexivity].
  destruct (GetNodeInfo_spec (map_to_list (Nodes Sample.session2))
              (mkCachedNodeInfo Sample.session2) "node-1" (reflexivity _))
    as [Hfound _].
  apply (Hfound Sample.apiNode1). reflexivity.
Defined.

(** ** The properties on the sample cluster *)



Lemma nodeOrderFn_unknown_node_witness :
  nodeMap Sample.unindexed !! Name Sample.apiNode1 = None
  /\ fst (resolveNodeInfo Sample.apiNode1 Sample.unindexed)
     = mkNodeInfo (Some Sample.node1) [Sample.podA] (mkResource 2000 4096)
  /\ nodeMap (snd (Sample.score Sample.unitWeight Sample.taskB Sample.apiNode1
                     Sample.unindexed)) !! "node-1" = None.
Proof.
  split; [reflexivity |].
  destruct (nodeOrderFn_unknown_node
              Sample.leastRequested Sample.balancedResource Sample.nodeAffinity
              Sample.interPodAffinity Sample.mapRange Sample.nodeSlice
              Sample.unitWeight Sample.taskB Sample.apiNode1 Sample.unindexed eq_refl)
    as (Hentry & _ & _ & _ & Hindex & _ & _).
  split; [exact Hentry | exact Hindex].
Defined.

(** C4, as stated, fails: node-1 is not indexed and hosts pod A, and the
    entry the scoring call works on has pod A bound and its request added up,
    so that the score (13) differs from the one computed against an empty
    entry for node-1 (18). *)
Lemma unknown_node_entry_not_empty :
  nodeMap Sample.unindexed !! Name Sample.apiNode1 = None
  /\ fst (resolveNodeInfo Sample.apiNode1 Sample.unindexed)
     <> SetNode (NewNodeInfo []) Sample.node1
  /\ fst (Sample.score Sample.unitWeight Sample.taskB Sample.apiNode1 Sample.unindexed)
     = (Float64.of_int 13, None)
  /\ fst (scoreAgainst Sample.leastRequested Sample.balancedResource Sample.nodeAffinity
            Sample.interPodAffinity Sample.mapRange Sample.unitWeight Sample.nodeSlice
            Sample.taskB Sample.apiNode1 (SetNode (NewNodeInfo []) Sample.node1)
            Sample.unindexed)
     = (Float64.of_int 18, None)
  /\ fst (Sample.score Sample.unitWeight Sample.taskB Sample.apiNode1 Sample.unindexed)
     <> fst (scoreAgainst Sample.leastRequested Sample.balancedResource
               Sample.nodeAffinity Sample.interPodAffinity Sample.mapRange
               Sample.unitWeight Sample.nodeSlice Sample.taskB Sample.apiNode1
               (SetNode (NewNodeInfo []) Sample.node1) Sample.unindexed).
Proof.
  split; [reflexivity |]. split; [vm_compute; discriminate |].
  split; [vm_compute; reflexivity |]. split; [vm_compute; reflexivity |].
  vm_compute. discriminate.
Qed.

Lemma getInterPodAffinityScore_spec_witness :
  getInterPodAffinityScore "node-1"
    [mkHostPriority "node-0" 4; mkHostPriority "node-1" 7; mkHostPriority "node-1" 9] = 7
  /\ getInterPodAffinityScore "node-2"
       [mkHostPriority "node-0" 4; mkHostPriority "node-1" 7; mkHostPriority "node-1" 9] = 0.
Proof.
  split.
  - destruct (getInterPodAffinityScore_spec
                Sample.leastRequested Sample.balancedResource Sample.nodeAffinity
                Sample.interPodAffinity Sample.mapRange Sample.nodeSlice "node-1"
                [mkHostPriority "node-0" 4; mkHostPriority "node-1" 7;
                 mkHostPriority "node-1" 9]) as (Hfirst & _ & _).
    apply (Hfirst [mkHostPriority "node-0" 4] (mkHostPriority "node-1" 7)
             [mkHostPriority "node-1" 9]); [reflexivity | reflexivity |].
    repeat constructor. cbn. discriminate.
  - destruct (getInterPodAffinityScore_spec
                Sample.leastRequested Sample.balancedResource Sample.nodeAffinity
                Sample.interPodAffinity Sample.mapRange Sample.nodeSlice "node-2"
                [mkHostPriority "node-0" 4; mkHostPriority "node-1" 7;
                 mkHostPriority "node-1" 9]) as (_ & Hnone & _).
    apply Hnone. repeat constructor; cbn; discriminate.
Defined.

Lemma nodeOrderFn_linear_in_weight_witness :
  (termsBounded (mkWeight 3 1 2 1) 2 10 1 1
   /\ termsBounded (scaleWeight LeastRequested 5 (mkWeight 3 1 2 1)) 2 10 1 1)
  /\ fst (Sample.score (mkWeight 3 1 2 1) Sample.taskB Sample.apiNode1 Sample.indexed)
     = (Float64.of_int 19, None)
  /\ fst (Sample.score (mkWeight (3 * 5) 1 2 1) Sample.taskB Sample.apiNode1
            Sample.indexed)
     = (Float64.of_int (19 + (5 - 1) * (2 * 3)), None)
  /\ calculateWeight {[ "leastrequested.weight" := "0" ]} = mkWeight 0 1 1 1
  /\ fst (Sample.score (mkWeight 0 1 1 1) Sample.taskB Sample.apiNode1 Sample.indexed)
     = (weightedSum (mkWeight 0 1 1 1) 0 10 1 1, None).
Proof.
  assert (Hw : termsBounded (mkWeight 3 1 2 1) 2 10 1 1)
    by (unfold termsBounded; cbn; lia).
  assert (Hkw : termsBounded (scaleWeight LeastRequested 5 (mkWeight 3 1 2 1)) 2 10 1 1)
    by (unfold termsBounded; cbn; lia).
  split; [split; assumption |].
  destruct (nodeOrderFn_linear_in_weight
              Sample.leastRequested Sample.balancedResource Sample.nodeAffinity
              Sample.interPodAffinity Sample.mapRange Sample.nodeSlice
              (mkWeight 3 1 2 1) LeastRequested 5
              Sample.taskB Sample.apiNode1 Sample.indexed
              (mkHostPriority "node-1" 2) (mkHostPriority "node-1" 10)
              (mkHostPriority "node-1" 1) [mkHostPriority "node-1" 1]
              eq_refl eq_refl eq_refl eq_refl)
    as (Hlinear & _).
  destruct (Hlinear Hw Hkw) as (Hbase & Hscaled & _).
  split; [exact Hbase |]. split; [exact Hscaled |].
  split; [vm_compute; reflexivity |].
  destruct (nodeOrderFn_linear_in_weight
              Sample.leastRequested Sample.balancedResource Sample.nodeAffinity
              Sample.interPodAffinity Sample.mapRange Sample.nodeSlice
              (mkWeight 0 1 1 1) LeastRequested 1
              Sample.taskB Sample.apiNode1 Sample.indexed
              (mkHostPriority "node-1" 2) (mkHostPriority "node-1" 10)
              (mkHostPriority "node-1" 1) [mkHostPriority "node-1" 1]
              eq_refl eq_refl eq_refl eq_refl)
    as (_ & Hzero).
  destruct (Hzero eq_refl) as (_ & Hany). exact (Hany 0).
Defined.

(** C8, as stated, fails.  The argument bag can set the Least-Requested
    weight to [2 ^ 61] and to twice that, [2 ^ 62]; both are Go [int]s.  With
    the raw Least-Requested sub-score 2, the contribution under the first
    weight is [2 ^ 62], and under the doubled weight it is not twice that
    but [- 2 ^ 63], since the product overflows: doubling the weight lowers
    the score instead of raising it by the contribution.  Without any
    overflow, rounding has the same effect: with the sub-score 1 and the
    weight [2 ^ 53 + 1] the contribution is [2 ^ 53], and under the tripled
    weight it is [3 * 2 ^ 53 + 4], which is not three times [2 ^ 53]. *)
Lemma doubling_weight_overflows :
  calculateWeight {[ "leastrequested.weight" := "2305843009213693952" ]}
  = Sample.heavyWeight
  /\ calculateWeight {[ "leastrequested.weight" := "4611686018427387904" ]}
     = scaleWeight LeastRequested 2 Sample.heavyWeight
  /\ Sample.leastRequested (taskPod Sample.taskB)
       (fst (resolveNodeInfo Sample.apiNode1 Sample.indexed))
     = (mkHostPriority "node-1" 2, None)
  /\ contribution 2 (weightOf LeastRequested Sample.heavyWeight)
     = Float64.of_int (2 ^ 62)
  /\ contribution 2 (weightOf LeastRequested (scaleWeight LeastRequested 2 Sample.heavyWeight))
     = Float64.of_int (- 2 ^ 63)
  /\ contribution 2 (weightOf LeastRequested (scaleWeight LeastRequested 2 Sample.heavyWeight))
     <> Float64.mul (Float64.of_int 2)
          (contribution 2 (weightOf LeastRequested Sample.heavyWeight))
  /\ fst (Sample.score Sample.heavyWeight Sample.taskB Sample.apiNode1 Sample.indexed)
     = (Float64.of_int (2 ^ 62), None)
  /\ fst (Sample.score (scaleWeight LeastRequested 2 Sample.heavyWeight)
            Sample.taskB Sample.apiNode1 Sample.indexed)
     = (Float64.of_int (- 2 ^ 63), None)
  /\ Float64.add (Float64.of_int (2 ^ 62))
       (contribution 2 (weightOf LeastRequested Sample.heavyWeight))
     = Float64.of_int (2 ^ 63)
  /\ Float64.ltb (Float64.of_int (- 2 ^ 63)) (Float64.of_int (2 ^ 62)) = true
  /\ (GoInt.inRange (3 * (2 ^ 53 + 1))
      /\ contribution 1 (2 ^ 53 + 1) = Float64.of_int (2 ^ 53)
      /\ contribution 1 (3 * (2 ^ 53 + 1)) = Float64.of_int (3 * 2 ^ 53 + 4)
      /\ Float64.mul (Float64.of_int 3) (contribution 1 (2 ^ 53 + 1))
         = Float64.of_int (3 * 2 ^ 53)
      /\ contribution 1 (3 * (2 ^ 53 + 1))
         <> Float64.mul (Float64.of_int 3) (contribution 1 (2 ^ 53 + 1))).
Proof.
  repeat split; try (vm_compute; reflexivity); try (vm_compute; discriminate).
Qed.


(** * Further properties of the plugin's functions *)

(** ** getInterPodAffinityScore *)

(** X1.  Over a concatenation, the first list decides if it has an entry for the
    name, the second one otherwise. *)
Theorem getInterPodAffinityScore_app name (l1 l2 : HostPriorityList) :
  getInterPodAffinityScore name (l1 ++ l2)
  = if existsb (fun hp => String.eqb (Host hp) name) l1
    then getInterPodAffinityScore name l1
    else getInterPodAffinityScore name l2.
Proof.
  induction l1 as [| hp l1 IH]; cbn; [reflexivity |].
  destruct (String.eqb (Host hp) name); cbn; [reflexivity | exact IH].
Qed.

(** X2.  The entries of other hosts are irrelevant; a result other than 0 is the
    score of an entry of the list for that host; and the result lies within
    any bounds that hold for all scores of the list and for 0. *)
Theorem getInterPodAffinityScore_entries name (l : HostPriorityList) :
  getInterPodAffinityScore name l
  = getInterPodAffinityScore name
      (List.filter (fun hp => String.eqb (Host hp) name) l)
  /\ (getInterPodAffinityScore name l <> 0 ->
      exists hp, In hp l /\ Host hp = name
                 /\ Score hp = getInterPodAffinityScore name l)
  /\ (forall lo hi,
        lo <= 0 <= hi -> (forall hp, In hp l -> lo <= Score hp <= hi) ->
        lo <= getInterPodAffinityScore name l <= hi).
Proof.
  split; [| split].
  - induction l as [| hp l IH]; cbn; [reflexivity |].
    destruct (String.eqb (Host hp) name) eqn:Hhp; cbn; [now rewrite Hhp | exact IH].
  - induction l as [| hp l IH]; cbn; [congruence |].
    destruct (String.eqb_spec (Host hp) name) as [Hhp | Hhp].
    + intros _. exists hp. repeat split; [now left | assumption].
    + intros Hne. destruct (IH Hne) as (hp' & Hin & Hhost & Hscore).
      exists hp'. repeat split; [now right | assumption | assumption].
  - intros lo hi H0 Hall. induction l as [| hp l IH]; cbn; [assumption |].
    destruct (String.eqb (Host hp) name).
    + apply Hall. now left.
    + apply IH. intros hp' Hin. apply Hall. now right.
Qed.

Lemma getInterPodAffinityScore_entries_witness :
  getInterPodAffinityScore "node-1"
    [mkHostPriority "node-0" 4; mkHostPriority "node-1" 7]
  = getInterPodAffinityScore "node-1" [mkHostPriority "node-1" 7]
  /\ 0 <= getInterPodAffinityScore "node-1"
            [mkHostPriority "node-0" 4; mkHostPriority "node-1" 7] <= 10.
Proof.
  destruct (getInterPodAffinityScore_entries "node-1"
              [mkHostPriority "node-0" 4; mkHostPriority "node-1" 7])
    as (Hfilter & _ & Hbounds).
  split; [exact Hfilter |].
  apply Hbounds; [lia |].
  intros hp [<- | [<- | []]]; cbn; lia.
Defined.

(** ** GetNodeInfo *)

Lemma firstWithUnboundPod_Some visited nd :
  firstWithUnboundPod visited = Some nd ->
  exists k cacheNode,
    In (k, cacheNode) visited /\ hostsUnboundPod cacheNode /\ nd = apiNode cacheNode.
Proof.
  induction visited as [| [k x] visited IH]; cbn; [discriminate |].
  destruct (hasUnboundPod (Pods x)) eqn:Hx.
  - intros [= <-]. exists k, x. split; [now left |].
    split; [now apply hasUnboundPod_hosts | reflexivity].
  - intros Hrest. destruct (IH Hrest) as (k' & x' & Hin & Hhost & Hnd).
    exists k', x'. split; [now right | now split].
Qed.

(** X3.  [GetNodeInfo] returns either a node and no error, or no node and an
    error.  A node returned is the node of an entry of the session's map:
    the entry of the name if there is one, and otherwise an entry that hosts
    a pod with an empty node name.  An error is returned only for a name that
    is not in the map. *)
Theorem GetNodeInfo_result visited c name :
  visited ≡ₚ map_to_list (Nodes (session c)) ->
  (exists k cacheNode,
      Nodes (session c) !! k = Some cacheNode
      /\ GetNodeInfo visited c name = (Some (apiNode cacheNode), None)
      /\ (k = name \/ (Nodes (session c) !! name = None /\ hostsUnboundPod cacheNode)))
  \/ (Nodes (session c) !! name = None
      /\ GetNodeInfo visited c name
         = (None, Some (String.append "failed to find node <" (String.append name ">")))).
Proof.
  intros Hvisited. unfold GetNodeInfo.
  destruct (Nodes (session c) !! name) as [cacheNode |] eqn:Hname.
  - left. exists name, cacheNode. repeat split; [assumption | now left].
  - destruct (firstWithUnboundPod visited) as [nd |] eqn:Hfirst.
    + left. destruct (firstWithUnboundPod_Some _ _ Hfirst) as (k & x & Hin & Hhost & ->).
      exists k, x. split.
      * apply elem_of_map_to_list. rewrite <- Hvisited. now apply list_elem_of_In.
      * split; [reflexivity | right; now split].
    + right. now split.
Qed.

Lemma GetNodeInfo_result_witness :
  map_to_list (Nodes Sample.session2) ≡ₚ map_to_list (Nodes Sample.session2)
  /\ ((exists k cacheNode,
          Nodes Sample.session2 !! k = Some cacheNode
          /\ GetNodeInfo (map_to_list (Nodes Sample.session2))
               (mkCachedNodeInfo Sample.session2) "ghost"
             = (Some (apiNode cacheNode), None)
          /\ (k = "ghost"
              \/ (Nodes Sample.session2 !! "ghost" = None /\ hostsUnboundPod cacheNode)))
      \/ (Nodes Sample.session2 !! "ghost" = None
          /\ GetNodeInfo (map_to_list (Nodes Sample.session2))
               (mkCachedNodeInfo Sample.session2) "ghost"
             = (None, Some "failed to find node <ghost>"))).
Proof.
  split; [reflexivity |].
  apply (GetNodeInfo_result (map_to_list (Nodes Sample.session2))
           (mkCachedNodeInfo Sample.session2) "ghost").
  reflexivity.
Defined.



(** X5.  The order in which the map is visited does not matter when the nodes
    that host a pod with an empty node name all carry the same node object,
    in particular when there is at most one such node. *)
Theorem GetNodeInfo_order_irrelevant visited1 visited2 c name :
  visited1 ≡ₚ map_to_list (Nodes (session c)) ->
  visited2 ≡ₚ map_to_list (Nodes (session c)) ->
  (forall k1 k2 cacheNode1 cacheNode2,
      Nodes (session c) !! k1 = Some cacheNode1 ->
      Nodes (session c) !! k2 = Some cacheNode2 ->
      hostsUnboundPod cacheNode1 -> hostsUnboundPod cacheNode2 ->
      apiNode cacheNode1 = apiNode cacheNode2) ->
  GetNodeInfo visited1 c name = GetNodeInfo visited2 c name.
Proof.
  intros Hv1 Hv2 Hsame. unfold GetNodeInfo.
  destruct (Nodes (session c) !! name); [reflexivity |].
  assert (Hin : forall visited k x,
             visited ≡ₚ map_to_list (Nodes (session c)) ->
             In (k, x) visited -> Nodes (session c) !! k = Some x).
  { intros visited k x Hv Hkx. apply elem_of_map_to_list.
    rewrite <- Hv. now apply list_elem_of_In. }
  destruct (firstWithUnboundPod visited1) as [nd1 |] eqn:H1,
           (firstWithUnboundPod visited2) as [nd2 |] eqn:H2; [| | | reflexivity].
  - destruct (firstWithUnboundPod_Some _ _ H1) as (k1 & x1 & Hin1 & Hh1 & ->).
    destruct (firstWithUnboundPod_Some _ _ H2) as (k2 & x2 & Hin2 & Hh2 & ->).
    now rewrite (Hsame k1 k2 x1 x2 (Hin _ _ _ Hv1 Hin1) (Hin _ _ _ Hv2 Hin2) Hh1 Hh2).
  - exfalso. destruct (firstWithUnboundPod_Some _ _ H1) as (k1 & x1 & Hin1 & Hh1 & _).
    apply firstWithUnboundPod_None in H2. rewrite Forall_forall in H2.
    apply (H2 (k1, x1)); [| exact Hh1].
    rewrite Hv2, <- Hv1. now apply list_elem_of_In.
  - exfalso. destruct (firstWithUnboundPod_Some _ _ H2) as (k2 & x2 & Hin2 & Hh2 & _).
    apply firstWithUnboundPod_None in H1. rewrite Forall_forall in H1.
    apply (H1 (k2, x2)); [| exact Hh2].
    rewrite Hv1, <- Hv2. now apply list_elem_of_In.
Qed.

Lemma GetNodeInfo_order_irrelevant_witness :
  (map_to_list (Nodes Sample.session2) ≡ₚ map_to_list (Nodes Sample.session2)
   /\ rev (map_to_list (Nodes Sample.session2)) ≡ₚ map_to_list (Nodes Sample.session2))
  /\ GetNodeInfo (map_to_list (Nodes Sample.session2))
       (mkCachedNodeInfo Sample.session2) "ghost"
     = GetNodeInfo (rev (map_to_list (Nodes Sample.session2)))
         (mkCachedNodeInfo Sample.session2) "ghost".
Proof.
  assert (Hrev : rev (map_to_list (Nodes Sample.session2))
                 ≡ₚ map_to_list (Nodes Sample.session2))
    by (symmetry; apply Permutation_rev).
  split; [split; [reflexivity | exact Hrev] |].
  apply GetNodeInfo_order_irrelevant; [reflexivity | exact Hrev |].
  assert (Honly : forall k cacheNode,
             Nodes (session (mkCachedNodeInfo Sample.session2)) !! k = Some cacheNode ->
             hostsUnboundPod cacheNode -> cacheNode = Sample.apiNode2).
  { intros k cacheNode Hk Hhost. cbn in Hk.
    apply lookup_insert_Some in Hk as [[_ <-] | [_ Hk]].
    - exfalso. destruct Hhost as (pod & [<- | []] & Hpod). discriminate Hpod.
    - apply lookup_singleton_Some in Hk as [_ <-]. reflexivity. }
  intros k1 k2 cacheNode1 cacheNode2 H1 H2 Hh1 Hh2.
  now rewrite (Honly k1 cacheNode1 H1 Hh1), (Honly k2 cacheNode2 H2 Hh2).
Defined.

(** ** The event handlers *)

Lemma handle_run st s :
  handle st s
  = (tt, mkEnv (ssn s) (stepIndex st (nodeMap s))
           (snd (UpdateTask (podLister s) (Task (stepEvent st)) (stepNodeName st)))
           (glog s ++ [stepLogEntry st
                         (match nodeMap s !! taskNodeName (Task (stepEvent st)) with
                          | Some _ => true
                          | None => false
                          end)])
           (invoked s)).
Proof.
  destruct st as [event | event]; cbn [handle stepEvent stepIndex stepNodeName];
    unfold bindIndex, unbindIndex;
    destruct (nodeMap s !! taskNodeName (Task event)) as [n |] eqn:Hfound.
  - now rewrite (AllocateFunc_known _ _ _ Hfound).
  - now rewrite (AllocateFunc_unknown _ _ Hfound).
  - now rewrite (DeallocateFunc_known _ _ _ Hfound).
  - now rewrite (DeallocateFunc_unknown _ _ Hfound).
Qed.




(** X7.  After a handler, the pod lister holds, under the task's UID, the task's
    pod with the node name of the event (allocate) or with the empty node
    name (deallocate), also when the node is not indexed; what it holds for
    other tasks is unchanged.  Hence after a sequence of events the pod held
    for a task is the one of the last event. *)
Theorem handle_podLister st s :
  CachedPods (podLister (snd (handle st s))) !! UID (Task (stepEvent st))
  = Some (withNodeName (taskPod (Task (stepEvent st))) (stepNodeName st))
  /\ (forall uid,
        uid <> UID (Task (stepEvent st)) ->
        CachedPods (podLister (snd (handle st s))) !! uid
        = CachedPods (podLister s) !! uid)
  /\ (forall steps,
        CachedPods (podLister (runSteps (steps ++ [st]) s)) !! UID (Task (stepEvent st))
        = Some (withNodeName (taskPod (Task (stepEvent st))) (stepNodeName st))).
Proof.
  assert (Hown : forall s',
    CachedPods (podLister (snd (handle st s'))) !! UID (Task (stepEvent st))
    = Some (withNodeName (taskPod (Task (stepEvent st))) (stepNodeName st))).
  { intros s'. rewrite handle_run. cbn. apply lookup_insert_eq. }
  split; [apply Hown |]. split.
  - intros uid Huid. rewrite handle_run. cbn. now apply lookup_insert_ne.
  - intros steps. unfold runSteps. rewrite fold_left_app. cbn [fold_left]. apply Hown.
Qed.

Lemma runSteps_nodeMap steps s :
  nodeMap (runSteps steps s) = runIndex steps (nodeMap s).
Proof.
  unfold runSteps, runIndex. revert s.
  induction steps as [| st steps IH]; intros s; cbn [fold_left]; [reflexivity |].
  now rewrite IH, handle_run.
Qed.

Lemma runIndex_app steps1 steps2 index :
  runIndex (steps1 ++ steps2) index = runIndex steps2 (runIndex steps1 index).
Proof. apply fold_left_app. Qed.

Lemma unbindIndex_bindIndex event (index : gmap string NodeInfo) :
  unbindIndex event (bindIndex event index) = index.
Proof.
  unfold unbindIndex, bindIndex. cbv zeta.
  destruct (index !! taskNodeName (Task event)) as [n |] eqn:Hfound.
  - rewrite lookup_insert_eq, RemovePod_AddPod by reflexivity.
    rewrite insert_insert_eq. now apply insert_id.
  - now rewrite Hfound.
Qed.

Lemma WellNested_runIndex steps :
  WellNested steps -> forall index, runIndex steps index = index.
Proof.
  induction 1 as [| event steps _ IH | steps1 steps2 _ IH1 _ IH2]; intros index.
  - reflexivity.
  - change (Allocate event :: steps ++ [Deallocate event])
      with ([Allocate event] ++ steps ++ [Deallocate event]).
    rewrite !runIndex_app, IH. apply unbindIndex_bindIndex.
  - now rewrite runIndex_app, IH1, IH2.
Qed.




Lemma stepIndex_commute st1 st2 (index : gmap string NodeInfo) :
  taskNodeName (Task (stepEvent st1)) <> taskNodeName (Task (stepEvent st2)) ->
  stepIndex st1 (stepIndex st2 index) = stepIndex st2 (stepIndex st1 index).
Proof.
  intros Hne.
  destruct st1 as [e1 | e1], st2 as [e2 | e2]; cbn [stepIndex stepEvent] in *;
    unfold bindIndex, unbindIndex; cbv zeta;
    destruct (index !! taskNodeName (Task e1)) as [n1 |] eqn:H1,
             (index !! taskNodeName (Task e2)) as [n2 |] eqn:H2;
    rewrite ?lookup_insert_ne, ?H1, ?H2 by congruence;
    try reflexivity; now apply insert_insert_ne.
Qed.

(** X9.  Two events on different nodes can be handled in either order: the index
    is the same, and so is the pod lister when the events concern different
    tasks. *)
Theorem handle_commute st1 st2 s :
  taskNodeName (Task (stepEvent st1)) <> taskNodeName (Task (stepEvent st2)) ->
  nodeMap (runSteps [st1; st2] s) = nodeMap (runSteps [st2; st1] s)
  /\ (UID (Task (stepEvent st1)) <> UID (Task (stepEvent st2)) ->
      podLister (runSteps [st1; st2] s) = podLister (runSteps [st2; st1] s)).
Proof.
  intros Hne. split.
  - rewrite !runSteps_nodeMap. unfold runIndex. cbn [fold_left].
    symmetry. now apply stepIndex_commute.
  - intros Huid. unfold runSteps. cbn [fold_left]. rewrite !handle_run.
    cbn [snd podLister UpdateTask CachedPods]. f_equal.
    now apply insert_insert_ne.
Qed.

Lemma handle_commute_witness :
  taskNodeName (Task (stepEvent (Allocate (mkEvent Sample.taskB))))
  <> taskNodeName (Task (stepEvent (Deallocate (mkEvent SampleEvents.taskC))))
  /\ nodeMap (runSteps [Allocate (mkEvent Sample.taskB);
                        Deallocate (mkEvent SampleEvents.taskC)] SampleEvents.twoNodes)
     = nodeMap (runSteps [Deallocate (mkEvent SampleEvents.taskC);
                          Allocate (mkEvent Sample.taskB)] SampleEvents.twoNodes).
Proof.
  assert (Hne : taskNodeName (Task (stepEvent (Allocate (mkEvent Sample.taskB))))
                <> taskNodeName (Task (stepEvent (Deallocate (mkEvent SampleEvents.taskC)))))
    by (cbn; discriminate).
  split; [exact Hne |].
  apply (handle_commute (Allocate (mkEvent Sample.taskB))
           (Deallocate (mkEvent SampleEvents.taskC)) SampleEvents.twoNodes Hne).
Defined.

(** ** The order of [float64] on integers below [2 ^ 53] *)

Module Float64Order.
Import Float64.

Lemma magnitude_compare n1 n2 :
  Z.pos n1 < 2 ^ 53 -> Z.pos n2 < 2 ^ 53 ->
  match Z.pos (digits2_pos n1) - prec ?= Z.pos (digits2_pos n2) - prec with
  | Lt => Lt
  | Gt => Gt
  | Eq =>
      Pos.compare_cont Eq
        (Z.to_pos (Z.pos n1 * 2 ^ (prec - Z.pos (digits2_pos n1))))
        (Z.to_pos (Z.pos n2 * 2 ^ (prec - Z.pos (digits2_pos n2))))
  end = (n1 ?= n2)%positive.
Proof.
  intros H1 H2.
  pose proof (Float64Facts.digits_bounds n1) as [Hlo1 Hhi1].
  pose proof (Float64Facts.digits_bounds n2) as [Hlo2 Hhi2].
  pose proof (Float64Facts.digits_le n1 H1) as Hd1.
  pose proof (Float64Facts.digits_le n2 H2) as Hd2.
  set (d1 := Z.pos (digits2_pos n1)) in *. set (d2 := Z.pos (digits2_pos n2)) in *.
  destruct (Z.compare_spec (d1 - prec) (d2 - prec)) as [Heq | Hlt | Hgt].
  - assert (Hd : d1 = d2) by lia. rewrite Hd.
    assert (Hpow : 0 < 2 ^ (prec - d2)) by (apply Z.pow_pos_nonneg; unfold prec; lia).
    change (Pos.compare_cont Eq ?p ?q) with (p ?= q)%positive.
    rewrite Pos2Z.inj_compare, !Z2Pos.id by nia.
    rewrite <- Zmult_compare_compat_r by lia. symmetry. apply Pos2Z.inj_compare.
  - symmetry. apply Pos.compare_lt_iff. apply Pos2Z.pos_lt_pos.
    assert (2 ^ d1 <= 2 ^ (d2 - 1)) by (apply Z.pow_le_mono_r; lia). lia.
  - symmetry. apply Pos.compare_gt_iff. apply Pos2Z.pos_lt_pos.
    assert (2 ^ d2 <= 2 ^ (d1 - 1)) by (apply Z.pow_le_mono_r; lia). lia.
Qed.

Lemma canon_compare s1 s2 n1 n2 :
  Z.pos n1 < 2 ^ 53 -> Z.pos n2 < 2 ^ 53 ->
  SFcompare (canon s1 n1) (canon s2 n2)
  = Some (cond_Zopp s1 (Z.pos n1) ?= cond_Zopp s2 (Z.pos n2)).
Proof.
  intros H1 H2. pose proof (magnitude_compare n1 n2 H1 H2) as Hmag.
  unfold canon, SFcompare. destruct s1, s2; cbn [cond_Zopp]; f_equal.
  - change (- Z.pos n1 ?= - Z.pos n2) with (CompOpp (n1 ?= n2)%positive).
    rewrite <- Hmag.
    now destruct (Z.pos (digits2_pos n1) - prec ?= Z.pos (digits2_pos n2) - prec).
  - exact Hmag.
Qed.

Lemma of_int_compare a b :
  Z.abs a < 2 ^ 53 -> Z.abs b < 2 ^ 53 ->
  SFcompare (of_int a) (of_int b) = Some (a ?= b).
Proof.
  intros Ha Hb.
  destruct a as [| na | na], b as [| nb | nb];
    rewrite ?Float64Facts.of_int_pos, ?Float64Facts.of_int_neg by lia;
    try reflexivity.
  all: now rewrite canon_compare by lia.
Qed.

Lemma of_int_ltb a b :
  Z.abs a < 2 ^ 53 -> Z.abs b < 2 ^ 53 ->
  ltb (of_int a) (of_int b) = (a <? b).
Proof.
  intros Ha Hb. unfold ltb, SFltb. rewrite of_int_compare by assumption.
  unfold Z.ltb. now destruct (a ?= b).
Qed.

End Float64Order.

(** ** The scoring function *)

Lemma exactSum_bound w lr br na ipa :
  termsBounded w lr br na ipa -> Z.abs (exactSum w lr br na ipa) < 2 ^ 53.
Proof. intros (H1 & H2 & H3 & H4). unfold exactSum. lia. Qed.

Lemma calculateWeight_same args1 args2 :
  sameWeightArguments args1 args2 -> calculateWeight args1 = calculateWeight args2.
Proof.
  intros Hsame. rewrite !calculateWeight_fields. unfold spec_weight.
  rewrite (Hsame LeastRequestedWeight), (Hsame NodeAffinityWeight),
    (Hsame PodAffinityWeight), (Hsame BalancedResourceWeight);
    [reflexivity | | | |]; unfold recognizedKeys; cbn; tauto.
Qed.

Section ScoringExtras.

Variable LeastRequestedPriorityMap : Pod -> NodeInfo -> HostPriority * option error.
Variable BalancedResourceAllocationMap : Pod -> NodeInfo -> HostPriority * option error.
Variable CalculateNodeAffinityPriorityMap : Pod -> NodeInfo -> HostPriority * option error.
Variable NewInterPodAffinityPriority :
  (string -> option Node * option error) -> NodeLister -> PodLister -> Z ->
  Pod -> gmap string NodeInfo -> list Node -> HostPriorityList * option error.
Variable mapRange : gmap string ApiNodeInfo -> list (string * ApiNodeInfo).
Variable nodeSlice : list Node.

Local Abbreviation affinityScores :=
  (interPodAffinityScores NewInterPodAffinityPriority mapRange nodeSlice).
Local Abbreviation scoreOn w :=
  (scoreAgainst LeastRequestedPriorityMap BalancedResourceAllocationMap
     CalculateNodeAffinityPriorityMap NewInterPodAffinityPriority mapRange w nodeSlice).
Local Abbreviation score w :=
  (nodeOrderFn LeastRequestedPriorityMap BalancedResourceAllocationMap
     CalculateNodeAffinityPriorityMap NewInterPodAffinityPriority mapRange w nodeSlice).
Local Abbreviation entryFor s node := (fst (resolveNodeInfo node s)).

(** The log entries a call writes before it consults the priority
    functions. *)
Local Abbreviation preamble s node :=
  (match nodeMap s !! Name node with
   | Some _ => []
   | None => [WarnGenerateNodeInfo (Name node)]
   end).


(** X11.  For a node that is indexed, a scoring call uses of the candidate node
    only its name: the tasks and the node object the candidate carries are
    not looked at.  Of the task it uses only the pod. *)
Theorem nodeOrderFn_uses w task task' node node' s n :
  nodeMap s !! Name node = Some n ->
  Name node' = Name node ->
  taskPod task' = taskPod task ->
  score w task' node' s = score w task node s.
Proof.
  intros Hfound Hname Htask.
  unfold nodeOrderFn, bind.
  rewrite (resolveNodeInfo_found s node n Hfound).
  rewrite (resolveNodeInfo_found s node' n) by now rewrite Hname.
  unfold scoreAgainst, interPodAffinity, interPodAffinityScores, bind.
  now rewrite Hname, Htask.
Qed.

(** X12.  Two candidate nodes scored for the same task in the same state are
    ranked by their scores as by the exact weighted sums of their sub-scores,
    as long as every weighted sub-score is below [2 ^ 51] in absolute value:
    the comparison in [float64] agrees with the comparison of the integers. *)
Theorem nodeOrderFn_ranking w task nodeA nodeB s a1 a2 a3 b1 b2 b3 l :
  LeastRequestedPriorityMap (taskPod task) (entryFor s nodeA) = (a1, None) ->
  BalancedResourceAllocationMap (taskPod task) (entryFor s nodeA) = (a2, None) ->
  CalculateNodeAffinityPriorityMap (taskPod task) (entryFor s nodeA) = (a3, None) ->
  LeastRequestedPriorityMap (taskPod task) (entryFor s nodeB) = (b1, None) ->
  BalancedResourceAllocationMap (taskPod task) (entryFor s nodeB) = (b2, None) ->
  CalculateNodeAffinityPriorityMap (taskPod task) (entryFor s nodeB) = (b3, None) ->
  affinityScores s task = (l, None) ->
  termsBounded w (Score a1) (Score a2) (Score a3)
    (getInterPodAffinityScore (Name nodeA) l) ->
  termsBounded w (Score b1) (Score b2) (Score b3)
    (getInterPodAffinityScore (Name nodeB) l) ->
  Float64.ltb (fst (fst (score w task nodeA s))) (fst (fst (score w task nodeB s)))
  = (exactSum w (Score a1) (Score a2) (Score a3)
       (getInterPodAffinityScore (Name nodeA) l)
     <? exactSum w (Score b1) (Score b2) (Score b3)
          (getInterPodAffinityScore (Name nodeB) l)).
Proof.
  intros A1 A2 A3 B1 B2 B3 Hl HA HB.
  rewrite !(nodeOrderFn_fst LeastRequestedPriorityMap BalancedResourceAllocationMap
              CalculateNodeAffinityPriorityMap NewInterPodAffinityPriority mapRange
              nodeSlice).
  rewrite A1, A2, A3, B1, B2, B3, Hl, !verdict_success. cbn [fst].
  rewrite !weightedSum_exact by assumption.
  apply Float64Order.of_int_ltb; now apply exactSum_bound.
Qed.

End ScoringExtras.


Lemma nodeOrderFn_uses_witness :
  (nodeMap Sample.indexed !! Name Sample.apiNode1
   = Some (SetNode (NewNodeInfo [Sample.podA]) Sample.node1)
   /\ Name (mkApiNodeInfo "node-1" Sample.node2 []) = Name Sample.apiNode1
   /\ taskPod (mkTask "other" "elsewhere" Sample.podB) = taskPod Sample.taskB)
  /\ Sample.score Sample.unitWeight (mkTask "other" "elsewhere" Sample.podB)
       (mkApiNodeInfo "node-1" Sample.node2 []) Sample.indexed
     = Sample.score Sample.unitWeight Sample.taskB Sample.apiNode1 Sample.indexed.
Proof.
  split; [repeat split |].
  apply (nodeOrderFn_uses
           Sample.leastRequested Sample.balancedResource Sample.nodeAffinity
           Sample.interPodAffinity Sample.mapRange Sample.nodeSlice
           Sample.unitWeight Sample.taskB (mkTask "other" "elsewhere" Sample.podB)
           Sample.apiNode1 (mkApiNodeInfo "node-1" Sample.node2 []) Sample.indexed
           (SetNode (NewNodeInfo [Sample.podA]) Sample.node1));
    reflexivity.
Defined.

Lemma nodeOrderFn_ranking_witness :
  (termsBounded Sample.unitWeight 2 10 1 1 /\ termsBounded Sample.unitWeight 5 10 0 0)
  /\ Float64.ltb
       (fst (fst (Sample.score Sample.unitWeight Sample.taskB Sample.apiNode1
                    SampleEvents.twoNodes)))
       (fst (fst (Sample.score Sample.unitWeight Sample.taskB Sample.apiNode2
                    SampleEvents.twoNodes)))
     = (2 + 10 + 1 + 1 <? 5 + 10 + 0 + 0).
Proof.
  assert (HA : termsBounded Sample.unitWeight 2 10 1 1)
    by (unfold termsBounded; cbn; lia).
  assert (HB : termsBounded Sample.unitWeight 5 10 0 0)
    by (unfold termsBounded; cbn; lia).
  split; [split; assumption |].
  exact (nodeOrderFn_ranking
           Sample.leastRequested Sample.balancedResource Sample.nodeAffinity
           Sample.interPodAffinity Sample.mapRange Sample.nodeSlice
           Sample.unitWeight Sample.taskB Sample.apiNode1 Sample.apiNode2
           SampleEvents.twoNodes
           (mkHostPriority "node-1" 2) (mkHostPriority "node-1" 10)
           (mkHostPriority "node-1" 1)
           (mkHostPriority "node-2" 5) (mkHostPriority "node-2" 10)
           (mkHostPriority "node-2" 0)
           [mkHostPriority "node-1" 1]
           eq_refl eq_refl eq_refl eq_refl eq_refl eq_refl eq_refl HA HB).
Defined.

(** ** Events and scoring together *)

(** X13.  After an allocate event on an indexed node, a scoring call for that node
    works on the previous entry with the task's pod bound to it, and a
    scoring call for any other node works on the same entry as before.  After
    a bind/unbind cycle, and more generally after any well-nested sequence of
    events, every scoring call works on the same entry as before. *)
Theorem resolveNodeInfo_after_events event s n candidate :
  nodeMap s !! taskNodeName (Task event) = Some n ->
  (Name candidate = taskNodeName (Task event) ->
   fst (resolveNodeInfo candidate (snd (AllocateFunc event s)))
   = AddPod n (withNodeName (taskPod (Task event)) (taskNodeName (Task event))))
  /\ (Name candidate <> taskNodeName (Task event) ->
      fst (resolveNodeInfo candidate (snd (AllocateFunc event s)))
      = fst (resolveNodeInfo candidate s))
  /\ fst (resolveNodeInfo candidate (cycle event s)) = fst (resolveNodeInfo candidate s)
  /\ (forall steps,
        WellNested steps ->
        fst (resolveNodeInfo candidate (runSteps steps s))
        = fst (resolveNodeInfo candidate s)).
Proof.
  intros Hfound. split; [| split; [| split]].
  - intros Hname. rewrite (AllocateFunc_known _ _ _ Hfound). cbv zeta. cbn [snd].
    erewrite resolveNodeInfo_found; [reflexivity |].
    cbn [nodeMap]. rewrite Hname. apply lookup_insert_eq.
  - intros Hname. rewrite (AllocateFunc_known _ _ _ Hfound). cbv zeta. cbn [snd].
    unfold resolveNodeInfo, bind, gets, ret, log. cbn.
    rewrite lookup_insert_ne by congruence.
    now destruct (nodeMap s !! Name candidate).
  - apply entryFor_nodeMap, cycle_nodeMap.
  - intros steps Hsteps. apply entryFor_nodeMap.
    rewrite runSteps_nodeMap. now apply WellNested_runIndex.
Qed.

Lemma resolveNodeInfo_after_events_witness :
  nodeMap Sample.indexed !! taskNodeName Sample.taskB
  = Some (SetNode (NewNodeInfo [Sample.podA]) Sample.node1)
  /\ fst (resolveNodeInfo Sample.apiNode1
            (snd (AllocateFunc (mkEvent Sample.taskB) Sample.indexed)))
     = AddPod (SetNode (NewNodeInfo [Sample.podA]) Sample.node1)
         (withNodeName Sample.podB "node-1").
Proof.
  split; [reflexivity |].
  destruct (resolveNodeInfo_after_events (mkEvent Sample.taskB) Sample.indexed
              (SetNode (NewNodeInfo [Sample.podA]) Sample.node1) Sample.apiNode1
              eq_refl) as (Hsame & _).
  apply Hsame. reflexivity.
Defined.

(** ** The plugin's registration *)

Section LifecycleFacts.

Variable LeastRequestedPriorityMap : Pod -> NodeInfo -> HostPriority * option error.
Variable BalancedResourceAllocationMap : Pod -> NodeInfo -> HostPriority * option error.
Variable CalculateNodeAffinityPriorityMap : Pod -> NodeInfo -> HostPriority * option error.
Variable NewInterPodAffinityPriority :
  (string -> option Node * option error) -> NodeLister -> PodLister -> Z ->
  Pod -> gmap string NodeInfo -> list Node -> HostPriorityList * option error.
Variable mapRange : gmap string ApiNodeInfo -> list (string * ApiNodeInfo).
Variable NewPodLister : Session -> PodLister.
Variable GenerateNodeMapAndSlice :
  gmap string ApiNodeInfo -> gmap string NodeInfo * list Node.

Local Abbreviation open pp ssn reg :=
  (OnSessionOpen LeastRequestedPriorityMap BalancedResourceAllocationMap
     CalculateNodeAffinityPriorityMap NewInterPodAffinityPriority mapRange
     NewPodLister GenerateNodeMapAndSlice pp ssn reg).

(** X14.  Opening a session with plugins made from two argument bags that agree on
    the four recognised keys gives the same shared state and the same
    registrations, in particular the same scoring function.  The scoring
    function is registered under the name "nodeorder" whatever the
    arguments, scoring functions registered under other names are kept, and
    the handlers registered before are kept, with one more after them. *)
Theorem OnSessionOpen_arguments args1 args2 ssn reg :
  sameWeightArguments args1 args2 ->
  open (New args1) ssn reg = open (New args2) ssn reg
  /\ nodeOrderFns (snd (open (New args1) ssn reg)) !! "nodeorder"
     = Some (nodeOrderFn LeastRequestedPriorityMap BalancedResourceAllocationMap
               CalculateNodeAffinityPriorityMap NewInterPodAffinityPriority mapRange
               (calculateWeight args2) (snd (GenerateNodeMapAndSlice (Nodes ssn))))
  /\ (forall name,
        name <> "nodeorder" ->
        nodeOrderFns (snd (open (New args1) ssn reg)) !! name
        = nodeOrderFns reg !! name)
  /\ exists eh, eventHandlers (snd (open (New args1) ssn reg))
                = eventHandlers reg ++ [eh].
Proof.
  intros Hsame. unfold OnSessionOpen, New. cbn [pluginArguments].
  rewrite (calculateWeight_same args1 args2 Hsame).
  destruct (GenerateNodeMapAndSlice (Nodes ssn)) as [index slice]. cbn.
  split; [reflexivity |]. split; [apply lookup_insert_eq |]. split.
  - intros name Hname. now apply lookup_insert_ne.
  - now eexists.
Qed.

End LifecycleFacts.

Lemma OnSessionOpen_arguments_witness :
  sameWeightArguments SampleEvents.moreArguments SampleEvents.weightArguments
  /\ OnSessionOpen Sample.leastRequested Sample.balancedResource Sample.nodeAffinity
       Sample.interPodAffinity Sample.mapRange SampleEvents.newPodLister
       SampleEvents.generateNodeMapAndSlice (New SampleEvents.moreArguments)
       Sample.session2 (mkRegistry [] ∅)
     = OnSessionOpen Sample.leastRequested Sample.balancedResource Sample.nodeAffinity
         Sample.interPodAffinity Sample.mapRange SampleEvents.newPodLister
         SampleEvents.generateNodeMapAndSlice (New SampleEvents.weightArguments)
         Sample.session2 (mkRegistry [] ∅).
Proof.
  assert (Hsame : sameWeightArguments SampleEvents.moreArguments
                    SampleEvents.weightArguments).
  { intros key [<- | [<- | [<- | [<- | []]]]]; vm_compute; reflexivity. }
  split; [exact Hsame |].
  apply (OnSessionOpen_arguments
           Sample.leastRequested Sample.balancedResource Sample.nodeAffinity
           Sample.interPodAffinity Sample.mapRange SampleEvents.newPodLister
           SampleEvents.generateNodeMapAndSlice
           SampleEvents.moreArguments SampleEvents.weightArguments
           Sample.session2 (mkRegistry [] ∅) Hsame).
Defined.

(** ** The weights, key by key *)

(** X15.  Setting one of the four keys in the argument bag changes the weight of
    that key only: it becomes the parsed value, or 1 when the value does not
    parse, whatever the key held before; the other three weights stay. *)
Theorem calculateWeight_insert (args : Arguments) value :
  calculateWeight (<[LeastRequestedWeight := value]> args)
  = mkWeight (default 1 (Atoi value))
             (nodeAffinityWeight (calculateWeight args))
             (podAffinityWeight (calculateWeight args))
             (balancedRescourceWeight (calculateWeight args))
  /\ calculateWeight (<[NodeAffinityWeight := value]> args)
     = mkWeight (leastReqWeight (calculateWeight args))
                (default 1 (Atoi value))
                (podAffinityWeight (calculateWeight args))
                (balancedRescourceWeight (calculateWeight args))
  /\ calculateWeight (<[PodAffinityWeight := value]> args)
     = mkWeight (leastReqWeight (calculateWeight args))
                (nodeAffinityWeight (calculateWeight args))
                (default 1 (Atoi value))
                (balancedRescourceWeight (calculateWeight args))
  /\ calculateWeight (<[BalancedResourceWeight := value]> args)
     = mkWeight (leastReqWeight (calculateWeight args))
                (nodeAffinityWeight (calculateWeight args))
                (podAffinityWeight (calculateWeight args))
                (default 1 (Atoi value)).
Proof.
  rewrite !calculateWeight_fields. cbn [leastReqWeight nodeAffinityWeight
    podAffinityWeight balancedRescourceWeight].
  assert (Hown : forall key, spec_weight (<[key := value]> args) key
                             = default 1 (Atoi value)).
  { intros key. unfold spec_weight. now rewrite lookup_insert_eq. }
  repeat split; rewrite ?Hown, ?spec_weight_insert_ne by discriminate; reflexivity.
Qed.
